(** * go-term-markdown: the terminal renderer of a parsed markdown tree

    A shallow embedding of [renderer.go] and [options.go]: the Go strings the
    renderer manipulates, the markdown tree of the [ast] package, the
    [renderer] struct, [RenderNode] with its helpers, and the tree walk that
    drives it; followed by the properties of the specification. *)

From Stdlib Require Import String Ascii.
From Stdlib Require DecimalString.
From Stdlib Require Import ZArith List Bool Lia.
Import ListNotations.
Open Scope Z_scope.

(** ** Go strings

    A Go string is modelled by the sequence of runes (Unicode code points)
    that a [range] loop reads from it; this is the view [unicode.IsSpace] and
    the [strings.Trim*Func] family work on.  The model therefore speaks of
    valid UTF-8 text; a line feed is one byte and one rune, so splitting at
    line feeds is the same in both views. *)
Module GoString.

Definition rune := Z.
Definition gostring := list rune.

Definition LF : rune := 10.
Definition SP : rune := 32.

(** A literal of the source, given by its ASCII characters. *)
Definition str (s : String.string) : gostring :=
  map (fun a => Z.of_nat (Ascii.nat_of_ascii a))
    (String.list_ascii_of_string s).
Arguments str s%_string.

Definition streq (a b : gostring) : bool :=
  if list_eq_dec Z.eq_dec a b then true else false.

(** [unicode.IsSpace]: the Latin-1 switch, then the White_Space table. *)
Definition IsSpace (r : rune) : bool :=
  if (0 <=? r) && (r <=? 255) then
    (r =? 9) || (r =? 10) || (r =? 11) || (r =? 12) || (r =? 13)
    || (r =? 32) || (r =? 133) || (r =? 160)
  else
    (r =? 5760)
    || ((8192 <=? r) && (r <=? 8202))
    || (r =? 8232) || (r =? 8233) || (r =? 8239) || (r =? 8287)
    || (r =? 12288).

(** [strings.TrimLeftFunc], [strings.TrimRightFunc], [strings.TrimFunc]. *)
Fixpoint TrimLeftFunc (f : rune -> bool) (s : gostring) : gostring :=
  match s with
  | [] => []
  | r :: s' => if f r then TrimLeftFunc f s' else s
  end.

Definition TrimRightFunc (f : rune -> bool) (s : gostring) : gostring :=
  rev (TrimLeftFunc f (rev s)).

Definition TrimFunc (f : rune -> bool) (s : gostring) : gostring :=
  TrimRightFunc f (TrimLeftFunc f s).

(** [strings.TrimSpace]. *)
Definition TrimSpace (s : gostring) : gostring := TrimFunc IsSpace s.

(** [strings.TrimRight(s, "\n")]: the cutset holds the line feed only. *)
Definition TrimRightLF (s : gostring) : gostring :=
  TrimRightFunc (fun r => r =? LF) s.

(** [strings.Split(s, sep)] for a separator of one rune. *)
Fixpoint Split (s : gostring) (sep : rune) : list gostring :=
  match s with
  | [] => [[]]
  | r :: s' =>
      if r =? sep then [] :: Split s' sep
      else match Split s' sep with
           | l :: ls => (r :: l) :: ls
           | [] => [[r]]
           end
  end.

(** [strings.Join]. *)
Fixpoint Join (elems : list gostring) (sep : gostring) : gostring :=
  match elems with
  | [] => []
  | [e] => e
  | e :: rest => e ++ sep ++ Join rest sep
  end.

(** [strings.ReplaceAll(s, "\n", "")]: every line feed is dropped. *)
Definition RemoveAllLF (s : gostring) : gostring :=
  filter (fun r => negb (r =? LF)) s.

(** [strings.Repeat(s, count)] panics on a negative count. *)
Definition Repeat (s : gostring) (count : Z) : option gostring :=
  if count <? 0 then None
  else Some (concat (repeat s (Z.to_nat count))).

(** The decimal text of an integer, as [%d] prints it. *)
Definition Itoa (n : Z) : gostring :=
  str (DecimalString.NilZero.string_of_int (Z.to_int n)).

End GoString.
Import GoString.

(** ** [removeLineBreak] *)

(** The [for i, l := range lines] loop: element [i] is replaced by a value
    computed from its index and its old content. *)
Fixpoint mapi_from {A B : Type} (f : nat -> A -> B) (i : nat) (l : list A)
  : list B :=
  match l with
  | [] => []
  | x :: l' => f i x :: mapi_from f (S i) l'
  end.

Definition trimLine (n i : nat) (l : gostring) : gostring :=
  if Nat.eqb i 0 then TrimRightFunc IsSpace l
  else if Nat.eqb i (n - 1) then TrimLeftFunc IsSpace l
  else TrimFunc IsSpace l.

Definition removeLineBreak (text : gostring) : gostring :=
  let lines := Split text LF in
  if (length lines <=? 1)%nat then text
  else Join (mapi_from (trimLine (length lines)) 0%nat lines) [SP].





(** ** Go integers: [int] is 64 bits wide and wraps around. *)
Definition wrap_int (z : Z) : Z := (z + 2 ^ 63) mod 2 ^ 64 - 2 ^ 63.
Definition int_add (a b : Z) : Z := wrap_int (a + b).
Definition int_sub (a b : Z) : Z := wrap_int (a - b).
Definition is_int (z : Z) : Prop := - 2 ^ 63 <= z < 2 ^ 63.

(** ** The markdown tree (package [ast] of gomarkdown)

    Every node type embeds either [ast.Leaf], which carries a [Literal], or
    [ast.Container], which carries [Children].  [OtherLeaf] and
    [OtherContainer] stand for the node types of the package that
    [RenderNode] has no case for (math, captions, footnotes, ...). *)
Module ast.

Definition ListTypeOrdered : Z := 1.
Definition ListTypeDefinition : Z := 2.
Definition ListTypeTerm : Z := 4.

Definition TableAlignmentLeft : Z := 1.
Definition TableAlignmentRight : Z := 2.
Definition TableAlignmentCenter : Z := 3.

Inductive LeafKind : Type :=
| Text | HorizontalRule | HTMLBlock | CodeBlock
| Softbreak | Hardbreak | Code | HTMLSpan | OtherLeaf.

Inductive ContainerKind : Type :=
| Document | BlockQuote | List
| ListItem (ListFlags : Z)
| Paragraph
| Heading (Level : Z)
| Emph | Strong | Del
| Link (Destination Title : gostring)
| Image (Destination Title : gostring)
| Table
| TableCell (IsHeader : bool) (Align : Z)
| TableHeader | TableBody | TableFooter | TableRow
| OtherContainer.

#[warnings="-register-all"]
Inductive Node : Type :=
| Leaf (k : LeafKind) (Literal : gostring)
| Container (k : ContainerKind) (Children : list Node).

Inductive WalkStatus : Type := GoToNext | SkipChildren | Terminate.

(** A node is reached through its parents: each step up records the
    parent and the position of the child among the parent's children.
    This is what the [Parent] pointer and pointer equality give in Go. *)
Definition Path : Type := list (Node * nat).

Record Cursor : Type := { self : Node; path : Path }.

Definition GetChildren (n : Node) : list Node :=
  match n with
  | Leaf _ _ => []
  | Container _ cs => cs
  end.

Definition AsLeaf (n : Node) : option gostring :=
  match n with
  | Leaf _ lit => Some lit
  | Container _ _ => None
  end.

Definition GetFirstChild (n : Node) : option Node :=
  hd_error (GetChildren n).

Definition GetParent (c : Cursor) : option Cursor :=
  match path c with
  | [] => None
  | (p, _) :: up => Some {| self := p; path := up |}
  end.

(** [ast.GetNextNode]: the sibling that follows, if any. *)
Definition GetNextNode (c : Cursor) : option Node :=
  match path c with
  | [] => None
  | (p, i) :: _ => nth_error (GetChildren p) (S i)
  end.

End ast.
Import ast.

(** ** Collaborators

    [renderer.go] calls into other files of the package and into other
    packages.  Each of them is an interface here; the properties below hold
    for every implementation. *)

(** The escape codes and colour functions of [colors.go]. *)
Module colors.
Class ops : Type := {
  boldOn : gostring;
  italicOn : gostring;
  italicOff : gostring;
  crossedOutOn : gostring;
  crossedOutOff : gostring;
  greenOn : gostring;
  resetAll : gostring;
  colorOff : gostring;
  Green : gostring -> gostring;
  GreenBold : gostring -> gostring;
  Blue : gostring -> gostring;
  BlueBgItalic : gostring -> gostring;
  Red : gostring -> gostring;
  shade : list (gostring -> gostring) -> Z -> gostring -> gostring;
  defaultHeadingShades : list (gostring -> gostring);
  defaultQuoteShades : list (gostring -> gostring)
}.
End colors.

(** Package [text] (go-term-text): wrapping, visual length and the escape
    state.  [set_Bold] is the assignment to the [Bold] field. *)
Module text.
Class ops : Type := {
  WrapWithPad : gostring -> Z -> gostring -> gostring;
  WrapWithPadIndent : gostring -> Z -> gostring -> gostring -> gostring;
  Len : gostring -> Z;
  EscapeState : Type;
  EscapeState_zero : EscapeState;
  Witness : EscapeState -> gostring -> EscapeState;
  set_Bold : EscapeState -> bool -> EscapeState;
  FormatString : EscapeState -> gostring
}.
End text.

(** The heading counters of [numbering.go]. *)
Module headingNumbering.
Class ops : Type := {
  t : Type;
  zero : t;
  Observe : t -> Z -> t;
  Render : t -> gostring
}.
End headingNumbering.

(** Modelled from the spec: the alignment values of the table engine
    ([tables.go] is not among the sources); [CellAlignCopyHeader] is the
    sentinel that means "inherit this column's header alignment". *)
Inductive CellAlign : Type :=
| CellAlignLeft | CellAlignRight | CellAlignCenter | CellAlignCopyHeader.

(** The table engine of [tables.go]; [Render] gives the text it writes. *)
Module tableRenderer.
Class ops : Type := {
  t : Type;
  newTableRenderer : t;
  AddHeaderCell : t -> gostring -> CellAlign -> t;
  AddBodyCell : t -> gostring -> CellAlign -> t;
  NextBodyRow : t -> t;
  Render : t -> Z -> Z -> gostring
}.
End tableRenderer.

(** ** Panics and the renderer's monad *)

Inductive PanicKind : Type :=
| NilDereference        (* method or field of a nil pointer *)
| SliceOutOfRange       (* [popPad] on an empty pad accumulator *)
| NegativeRepeatCount   (* [strings.Repeat] with a negative count *)
| UnknownNodeType       (* the [default] case of [RenderNode] *)
| BadDocument.          (* the panic that ends [shouldCleanText] *)

Inductive Result (A : Type) : Type :=
| Ok (a : A)
| Panic (p : PanicKind).
Arguments Ok {A} a.
Arguments Panic {A} p.

Section Renderer.

Context {C : colors.ops} {X : text.ops}
        {HN : headingNumbering.ops} {TR : tableRenderer.ops}.
Import colors text.

Definition shadeFmt : Type := gostring -> gostring.
Definition levelShadeFmt : Type := Z -> shadeFmt.

(** The [renderer] struct, field by field. *)
Record renderer : Type := mkRenderer {
  lineWidth : Z;
  leftPad : Z;
  padAccumulator : list gostring;
  indent : gostring;
  inlineAccumulator : gostring;
  headingNumbering : headingNumbering.t;
  headingShade : levelShadeFmt;
  blockQuoteLevel : Z;
  blockQuoteShade : levelShadeFmt;
  table : option tableRenderer.t
}.

(** What a render works on: the renderer, the bytes written to [w] so
    far, and two counters that record how often [addPad] and [popPad]
    have run (bookkeeping of the model, absent from the Go struct). *)
Record St : Type := mkSt {
  rd : renderer;
  out : gostring;
  pushes : nat;
  pops : nat
}.

Definition M (A : Type) : Type := St -> Result (A * St).

Definition ret {A} (a : A) : M A := fun s => Ok (a, s).

Definition bind {A B} (m : M A) (k : A -> M B) : M B :=
  fun s => match m s with
           | Ok (a, s') => k a s'
           | Panic p => Panic p
           end.

Definition panic {A} (p : PanicKind) : M A := fun _ => Panic p.

Definition getR : M renderer := fun s => Ok (rd s, s).

Definition modR (f : renderer -> renderer) : M unit :=
  fun s => Ok (tt, mkSt (f (rd s)) (out s) (pushes s) (pops s)).

Notation "x <- m ;; k" := (bind m (fun x => k))
  (at level 61, m at next level, right associativity).
Notation "m ;;; k" := (bind m (fun _ => k))
  (at level 61, right associativity).

(** Field assignments. *)
Definition set_padAccumulator (v : list gostring) (r : renderer) :=
  mkRenderer (lineWidth r) (leftPad r) v (indent r) (inlineAccumulator r)
    (headingNumbering r) (headingShade r) (blockQuoteLevel r)
    (blockQuoteShade r) (table r).
Definition set_indent (v : gostring) (r : renderer) :=
  mkRenderer (lineWidth r) (leftPad r) (padAccumulator r) v
    (inlineAccumulator r) (headingNumbering r) (headingShade r)
    (blockQuoteLevel r) (blockQuoteShade r) (table r).
Definition set_inlineAccumulator (v : gostring) (r : renderer) :=
  mkRenderer (lineWidth r) (leftPad r) (padAccumulator r) (indent r) v
    (headingNumbering r) (headingShade r) (blockQuoteLevel r)
    (blockQuoteShade r) (table r).
Definition set_headingNumbering (v : headingNumbering.t) (r : renderer) :=
  mkRenderer (lineWidth r) (leftPad r) (padAccumulator r) (indent r)
    (inlineAccumulator r) v (headingShade r) (blockQuoteLevel r)
    (blockQuoteShade r) (table r).
Definition set_headingShade (v : levelShadeFmt) (r : renderer) :=
  mkRenderer (lineWidth r) (leftPad r) (padAccumulator r) (indent r)
    (inlineAccumulator r) (headingNumbering r) v (blockQuoteLevel r)
    (blockQuoteShade r) (table r).
Definition set_blockQuoteLevel (v : Z) (r : renderer) :=
  mkRenderer (lineWidth r) (leftPad r) (padAccumulator r) (indent r)
    (inlineAccumulator r) (headingNumbering r) (headingShade r) v
    (blockQuoteShade r) (table r).
Definition set_blockQuoteShade (v : levelShadeFmt) (r : renderer) :=
  mkRenderer (lineWidth r) (leftPad r) (padAccumulator r) (indent r)
    (inlineAccumulator r) (headingNumbering r) (headingShade r)
    (blockQuoteLevel r) v (table r).
Definition set_table (v : option tableRenderer.t) (r : renderer) :=
  mkRenderer (lineWidth r) (leftPad r) (padAccumulator r) (indent r)
    (inlineAccumulator r) (headingNumbering r) (headingShade r)
    (blockQuoteLevel r) (blockQuoteShade r) v.

(** [r.inlineAccumulator.WriteString], [.String()] and [.Reset()]. *)
Definition WriteString (s : gostring) : M unit :=
  modR (fun r => set_inlineAccumulator (inlineAccumulator r ++ s) r).

Definition drainAccumulator : M gostring :=
  r <- getR ;;
  modR (set_inlineAccumulator []) ;;;
  ret (inlineAccumulator r).

(** [fmt.Fprint(w, s)]; write errors are ignored by the source. *)
Definition Fprint (s : gostring) : M unit :=
  fun st => Ok (tt, mkSt (rd st) (out st ++ s) (pushes st) (pops st)).

Definition Fprintln : M unit := Fprint [LF].

Definition repeatOrPanic (s : gostring) (count : Z) : M gostring :=
  match Repeat s count with
  | Some v => ret v
  | None => panic NegativeRepeatCount
  end.

(** ** [options.go] and [NewRenderer] *)

Definition Options : Type := renderer -> renderer.

Definition WithHeadingShades (shades : list shadeFmt) : Options :=
  set_headingShade (shade shades).

Definition WithBlockquoteShades (shades : list shadeFmt) : Options :=
  set_blockQuoteShade (shade shades).

Definition NewRenderer (lineWidth leftPad : Z) (opts : list Options)
  : renderer :=
  fold_left (fun r opt => opt r) opts
    (mkRenderer lineWidth leftPad [] [] [] headingNumbering.zero
       (shade defaultHeadingShades) 0 (shade defaultQuoteShades) None).

(** ** The padding stack *)

Definition pad : M gostring :=
  r <- getR ;;
  margin <- repeatOrPanic [SP] (leftPad r) ;;
  ret (margin ++ Join (padAccumulator r) []).

Definition addPad (p : gostring) : M unit :=
  fun s =>
    Ok (tt, mkSt (set_padAccumulator (padAccumulator (rd s) ++ [p]) (rd s))
              (out s) (S (pushes s)) (pops s)).

Definition popPad : M unit :=
  fun s =>
    match padAccumulator (rd s) with
    | [] => Panic SliceOutOfRange
    | _ :: _ =>
        Ok (tt, mkSt (set_padAccumulator (removelast (padAccumulator (rd s)))
                        (rd s))
                  (out s) (pushes s) (S (pops s)))
    end.

(** ** Helpers of [RenderNode] *)

(** ["┃ "], ["─"] and ["• "]. *)
Definition bar : gostring := [9475; SP].
Definition dash : gostring := [9472].
Definition bullet : gostring := [8226; SP].

Definition renderHorizontalRule : M unit :=
  p <- pad ;;
  r <- getR ;;
  rule <- repeatOrPanic dash (int_sub (lineWidth r) (leftPad r)) ;;
  Fprint (p ++ rule ++ [LF; LF]).

Definition renderHeading (level : Z) : M unit :=
  content <- drainAccumulator ;;
  r <- getR ;;
  let hn := headingNumbering.Observe (headingNumbering r) level in
  modR (set_headingNumbering hn) ;;;
  let content := headingNumbering.Render hn ++ [SP] ++ content in
  let content := headingShade r level content in
  p <- pad ;;
  Fprint (WrapWithPad content (lineWidth r) p ++ [LF]) ;;;
  (if level =? 1 then
     p <- pad ;;
     rule <- repeatOrPanic dash (int_sub (lineWidth r) (leftPad r)) ;;
     Fprint (p ++ rule ++ [LF])
   else ret tt) ;;;
  Fprintln.

Definition renderFormattedCodeBlock (code : gostring) : M unit :=
  let code := TrimRightLF code in
  addPad (GreenBold bar) ;;;
  p <- pad ;;
  r <- getR ;;
  let output := WrapWithPad code (lineWidth r) p in
  popPad ;;;
  Fprint output ;;;
  Fprint [LF; LF].

Definition renderCodeBlock (literal : gostring) : M unit :=
  renderFormattedCodeBlock literal.

Definition renderHTMLBlock (literal : gostring) : M unit :=
  let code := TrimRightLF literal in
  addPad (GreenBold bar) ;;;
  p <- pad ;;
  r <- getR ;;
  let output := WrapWithPad code (lineWidth r) p in
  popPad ;;;
  Fprint output ;;;
  Fprint [LF; LF].

(** [renderImage] never looks at its third argument and never reports a
    rendered picture. *)
Definition renderImage (dest title : gostring) (lineWidth : Z)
  : gostring * bool :=
  let title := TrimSpace (RemoveAllLF title) in
  let dest := TrimSpace (RemoveAllLF dest) in
  (str "![" ++ title ++ str "](" ++ Blue dest ++ str ")", false).

(** [shouldCleanText]: climb from the node through its parents. *)
Definition cleanVerdict (n : Node) : option bool :=
  match n with
  | Container BlockQuote _ => Some false
  | Container (Heading _) _ | Container (Image _ _) _
  | Container (Link _ _) _ | Container (TableCell _ _) _
  | Container Document _ | Container (ListItem _) _ => Some true
  | _ => None
  end.

Fixpoint shouldCleanText_from (n : Node) (up : Path) : Result bool :=
  match cleanVerdict n with
  | Some b => Ok b
  | None =>
      match up with
      | [] => Panic BadDocument
      | (p, _) :: up' => shouldCleanText_from p up'
      end
  end.

Definition shouldCleanText (c : Cursor) : Result bool :=
  shouldCleanText_from (self c) (path c).

Definition liftResult {A} (x : Result A) : M A :=
  match x with
  | Ok a => ret a
  | Panic p => panic p
  end.

(** The [itemNumber] loop of an ordered list item: one more for every
    sibling met before the item itself (the sibling at the item's own
    position is the only one equal to it). *)
Fixpoint itemNumber_loop (siblings : list Node) (i self_index : nat)
         (itemNumber : Z) : Z :=
  match siblings with
  | [] => itemNumber
  | _ :: rest =>
      if Nat.eqb i self_index then itemNumber
      else itemNumber_loop rest (S i) self_index (int_add itemNumber 1)
  end.

Definition withTable (f : tableRenderer.t -> tableRenderer.t) : M unit :=
  r <- getR ;;
  match table r with
  | None => panic NilDereference
  | Some t => modR (set_table (Some (f t)))
  end.

Definition cellAlignOf (align : Z) : CellAlign :=
  if align =? TableAlignmentRight then CellAlignRight
  else if align =? TableAlignmentCenter then CellAlignCenter
  else CellAlignLeft.

Definition isSeparatedBlock (n : Node) : bool :=
  match n with
  | Container Paragraph _ | Container (Heading _) _
  | Leaf HorizontalRule _ | Leaf CodeBlock _ | Leaf HTMLBlock _ => true
  | _ => false
  end.

(** ** [RenderNode]

    The longer cases of the type switch are given first, each under the
    name of its node type; [RenderNode] itself follows, one branch per
    case of the switch, in the order of the source. *)

Definition hasFlag (flags flag : Z) : bool := negb (Z.land flags flag =? 0).

Definition renderListItem (c : Cursor) (flags : Z) (entering : bool)
  : M unit :=
  if entering then
    if hasFlag flags ListTypeOrdered then
      match path c with
      | [] => panic NilDereference
      | (parent, self_index) :: _ =>
          let itemNumber :=
            itemNumber_loop (GetChildren parent) 0%nat self_index 1 in
          let prefix := Itoa itemNumber ++ str ". " in
          p <- pad ;;
          modR (set_indent (p ++ Green prefix)) ;;;
          gutter <- repeatOrPanic [SP] (Len prefix) ;;
          addPad gutter
      end
    else if hasFlag flags ListTypeTerm then
      WriteString greenOn
    else if hasFlag flags ListTypeDefinition then
      addPad (str "  ")
    else
      p <- pad ;;
      modR (set_indent (p ++ Green bullet)) ;;;
      addPad (str "  ")
  else
    if hasFlag flags ListTypeOrdered then
      popPad
    else if hasFlag flags ListTypeTerm then
      WriteString colorOff
    else if hasFlag flags ListTypeDefinition then
      popPad ;;; Fprintln
    else
      popPad.

Definition renderParagraph (c : Cursor) : M unit :=
  content <- drainAccumulator ;;
  r <- getR ;;
  block <-
    (if negb (streq (indent r) []) then
       p <- pad ;;
       modR (set_indent []) ;;;
       ret (WrapWithPadIndent content (lineWidth r) (indent r) p)
     else
       p <- pad ;;
       ret (WrapWithPad content (lineWidth r) p)) ;;
  Fprint (block ++ [LF]) ;;;
  match GetNextNode c with
  | Some next => if isSeparatedBlock next then Fprintln else ret tt
  | None => ret tt
  end.

Definition renderStrongExit : M unit :=
  r <- getR ;;
  let es := Witness EscapeState_zero (inlineAccumulator r) in
  let es := set_Bold es false in
  WriteString resetAll ;;;
  WriteString (FormatString es).

Definition renderLinkEnter (node : Node) (Destination Title : gostring)
  : M WalkStatus :=
  WriteString (str "[") ;;;
  match GetFirstChild node with
  | None => panic NilDereference
  | Some first =>
      match AsLeaf first with
      | None => panic NilDereference
      | Some literal =>
          WriteString literal ;;;
          WriteString (str "](") ;;;
          WriteString (Blue Destination) ;;;
          (if (0 <? Z.of_nat (length Title)) then
             WriteString (str " ") ;;; WriteString Title
           else ret tt) ;;;
          WriteString (str ")") ;;;
          ret SkipChildren
      end
  end.

Definition renderImageEnter (Children : list Node)
           (Destination : gostring) : M WalkStatus :=
  let title :=
    match Children with
    | [Leaf Text literal] => literal
    | _ => []
    end in
  r <- getR ;;
  let '(s, rendered) :=
    renderImage Destination title (int_sub (lineWidth r) (leftPad r)) in
  (if rendered : bool then
     WriteString [LF] ;;; WriteString s ;;; WriteString [LF; LF]
   else
     WriteString s ;;; WriteString [LF]) ;;;
  ret SkipChildren.

Definition renderText (c : Cursor) (Literal : gostring) : M unit :=
  if streq Literal [LF] then ret tt
  else
    clean <- liftResult (shouldCleanText c) ;;
    let content := if clean then removeLineBreak Literal else Literal in
    WriteString content.

Definition renderTableCellExit (IsHeader : bool) (Align : Z) : M unit :=
  content <- drainAccumulator ;;
  let align := cellAlignOf Align in
  if IsHeader then
    withTable (fun t => tableRenderer.AddHeaderCell t content align)
  else
    withTable (fun t => tableRenderer.AddBodyCell t content
                          CellAlignCopyHeader).

Definition parentIs (c : Cursor) (test : Node -> bool) : bool :=
  match GetParent c with
  | Some p => test (self p)
  | None => false
  end.

Definition isListItem (n : Node) : bool :=
  match n with Container (ListItem _) _ => true | _ => false end.
Definition isList (n : Node) : bool :=
  match n with Container List _ => true | _ => false end.
Definition isTableBody (n : Node) : bool :=
  match n with Container TableBody _ => true | _ => false end.
Definition isTableFooter (n : Node) : bool :=
  match n with Container TableFooter _ => true | _ => false end.

Definition RenderNode (c : Cursor) (entering : bool) : M WalkStatus :=
  match self c with
  | Container Document _ => ret GoToNext

  | Container BlockQuote _ =>
      (if entering then
         r <- getR ;;
         let level := int_add (blockQuoteLevel r) 1 in
         modR (set_blockQuoteLevel level) ;;;
         addPad (blockQuoteShade r level bar)
       else
         r <- getR ;;
         modR (set_blockQuoteLevel (int_sub (blockQuoteLevel r) 1)) ;;;
         popPad) ;;;
      ret GoToNext

  | Container List _ =>
      match GetNextNode c with
      | Some next =>
          (if negb entering
              && negb (isList next) && negb (parentIs c isListItem)
           then Fprintln else ret tt) ;;;
          ret GoToNext
      | None => ret GoToNext
      end

  | Container (ListItem flags) _ =>
      renderListItem c flags entering ;;; ret GoToNext

  | Container Paragraph _ =>
      (if negb entering then renderParagraph c else ret tt) ;;;
      ret GoToNext

  | Container (Heading level) _ =>
      (if negb entering then renderHeading level else ret tt) ;;;
      ret GoToNext

  | Leaf HorizontalRule _ => renderHorizontalRule ;;; ret GoToNext

  | Container Emph _ =>
      WriteString (if entering then italicOn else italicOff) ;;;
      ret GoToNext

  | Container Strong _ =>
      (if entering then WriteString boldOn else renderStrongExit) ;;;
      ret GoToNext

  | Container Del _ =>
      WriteString (if entering then crossedOutOn else crossedOutOff) ;;;
      ret GoToNext

  | Container (Link Destination Title) _ =>
      if entering then renderLinkEnter (self c) Destination Title
      else ret GoToNext

  | Container (Image Destination Title) Children =>
      if entering then renderImageEnter Children Destination
      else ret GoToNext

  | Leaf Text Literal => renderText c Literal ;;; ret GoToNext

  | Leaf HTMLBlock Literal => renderHTMLBlock Literal ;;; ret GoToNext

  | Leaf CodeBlock Literal => renderCodeBlock Literal ;;; ret GoToNext

  | Leaf Softbreak _ => WriteString [LF] ;;; ret GoToNext

  | Leaf Hardbreak _ => WriteString [LF] ;;; ret GoToNext

  | Leaf Code Literal =>
      WriteString (BlueBgItalic Literal) ;;; ret GoToNext

  | Leaf HTMLSpan Literal => WriteString (Red Literal) ;;; ret GoToNext

  | Container Table _ =>
      (if entering then
         modR (set_table (Some tableRenderer.newTableRenderer))
       else
         r <- getR ;;
         match table r with
         | None => panic NilDereference
         | Some t =>
             Fprint (tableRenderer.Render t (leftPad r) (lineWidth r)) ;;;
             modR (set_table None)
         end) ;;;
      ret GoToNext

  | Container (TableCell IsHeader Align) _ =>
      (if negb entering then renderTableCellExit IsHeader Align
       else ret tt) ;;;
      ret GoToNext

  | Container TableHeader _ | Container TableBody _
  | Container TableFooter _ => ret GoToNext

  | Container TableRow _ =>
      (if parentIs c isTableBody && entering
       then withTable tableRenderer.NextBodyRow else ret tt) ;;;
      (if parentIs c isTableFooter && entering
       then withTable tableRenderer.NextBodyRow else ret tt) ;;;
      ret GoToNext

  | Leaf OtherLeaf _ | Container OtherContainer _ =>
      panic UnknownNodeType
  end.

(** ** The walk ([ast.Walk] and [markdown.Render] of gomarkdown)

    A container is visited on entry and on exit, its children in between
    unless the entry asked to skip them; a leaf is visited once, as an
    entry.  [Terminate] closes the node at hand and stops the walk. *)
Fixpoint Walk (up : Path) (n : Node) {struct n} : M WalkStatus :=
  let c := {| self := n; path := up |} in
  match n with
  | Leaf _ _ =>
      status <- RenderNode c true ;;
      match status with
      | Terminate => ret Terminate
      | _ => ret GoToNext
      end
  | Container _ children =>
      status <- RenderNode c true ;;
      match status with
      | Terminate => RenderNode c false ;;; ret Terminate
      | _ =>
          status <-
            (match status with
             | SkipChildren => ret GoToNext
             | _ =>
                 (fix walkChildren (i : nat) (l : list Node)
                    : M WalkStatus :=
                    match l with
                    | [] => ret GoToNext
                    | child :: rest =>
                        status <- Walk ((n, i) :: up) child ;;
                        match status with
                        | Terminate => ret Terminate
                        | _ => walkChildren (S i) rest
                        end
                    end) 0%nat children
             end) ;;
          match status with
          | Terminate => ret Terminate
          | _ =>
              status <- RenderNode c false ;;
              match status with
              | Terminate => ret Terminate
              | _ => ret GoToNext
              end
          end
      end
  end.

(** The children loop of [Walk], by name. *)
Fixpoint walkChildren (up : Path) (n : Node) (i : nat) (l : list Node)
  : M WalkStatus :=
  match l with
  | [] => ret GoToNext
  | child :: rest =>
      status <- Walk ((n, i) :: up) child ;;
      match status with
      | Terminate => ret Terminate
      | _ => walkChildren up n (S i) rest
      end
  end.

(** A render of a parsed tree: [RenderHeader] and [RenderFooter] write
    nothing, the walk starts at the root, and the bytes written are the
    result. *)
Definition renderWith (r : renderer) (doc : Node) : Result (gostring * St) :=
  match Walk [] doc (mkSt r [] 0%nat 0%nat) with
  | Ok (_, s) => Ok (out s, s)
  | Panic p => Panic p
  end.

(** A render with a renderer of its own, as every call of the package's
    [Render] makes one. *)
Definition Render (doc : Node) (lineWidth leftPad : Z)
           (opts : list Options) : Result gostring :=
  match renderWith (NewRenderer lineWidth leftPad opts) doc with
  | Ok (bytes, _) => Ok bytes
  | Panic p => Panic p
  end.


(** ** Notions the properties are stated with *)

(** A state that differs from [s] in the inline accumulator only. *)
Definition withAccumulator (acc : gostring) (s : St) : St :=
  mkSt (set_inlineAccumulator acc (rd s)) (out s) (pushes s) (pops s).

(** The left margin [pad] returns when [leftPad] is not negative. *)
Definition margin (r : renderer) : gostring :=
  concat (repeat [SP] (Z.to_nat (leftPad r))) ++ Join (padAccumulator r) [].

(** The text a Link puts into the accumulator, given its label. *)
Definition linkText (label Destination Title : gostring) : gostring :=
  str "[" ++ label ++ str "](" ++ Blue Destination
    ++ (if 0 <? Z.of_nat (length Title) then str " " ++ Title else [])
    ++ str ")".

(** The alternative text of an Image: the literal of its only child when
    that child is a Text, nothing otherwise. *)
Definition imageAlt (children : list Node) : gostring :=
  match children with
  | [Leaf Text literal] => literal
  | _ => []
  end.

(** The text an Image puts into the accumulator. *)
Definition imageText (alt Destination : gostring) : gostring :=
  str "![" ++ TrimSpace (RemoveAllLF alt) ++ str "]("
    ++ Blue (TrimSpace (RemoveAllLF Destination)) ++ str ")" ++ [LF].

(** The fallback as the specification words it: "[title](destination)". *)
Definition imageText_as_worded (alt Destination : gostring) : gostring :=
  str "[" ++ alt ++ str "](" ++ Destination ++ str ")".

(** A next sibling that calls for a blank line after a paragraph. *)
Definition wantsSeparation (next : Node) : Prop :=
  (exists cs, next = Container Paragraph cs)
  \/ (exists level cs, next = Container (Heading level) cs)
  \/ (exists literal, next = Leaf HorizontalRule literal)
  \/ (exists literal, next = Leaf CodeBlock literal)
  \/ (exists literal, next = Leaf HTMLBlock literal).

(** The options the package exports. *)
Inductive exportedOption : Options -> Prop :=
| exported_heading shades : exportedOption (WithHeadingShades shades)
| exported_quote shades : exportedOption (WithBlockquoteShades shades).

(** Between [s] and [s'] the padding stack is back to what it was, the
    blockquote level too, and as many pads were pushed as popped. *)
Definition balanced (s s' : St) : Prop :=
  padAccumulator (rd s') = padAccumulator (rd s)
  /\ blockQuoteLevel (rd s') = blockQuoteLevel (rd s)
  /\ (pushes s' + pops s = pushes s + pops s')%nat.

(** The containers whose entry pushes a pad, and the one that also
    raises the blockquote level. *)
Definition opensPad (k : ContainerKind) : bool :=
  match k with
  | BlockQuote => true
  | ListItem flags =>
      hasFlag flags ListTypeOrdered || negb (hasFlag flags ListTypeTerm)
  | _ => false
  end.

Definition isQuote (k : ContainerKind) : bool :=
  match k with
  | BlockQuote => true
  | _ => false
  end.

(** A walk that returns has not been terminated and is balanced. *)
Definition walk_balanced (n : Node) : Prop :=
  forall up s status s',
    is_int (blockQuoteLevel (rd s)) ->
    Walk up n s = Ok (status, s') ->
    status = GoToNext /\ balanced s s'.

(** ** The nodes a walk visits *)

(** The two node types whose entry answers [SkipChildren]. *)
Definition isLinkOrImage (n : Node) : bool :=
  match n with
  | Container (Link _ _) _ | Container (Image _ _) _ => true
  | _ => false
  end.

(** The four node types at which [shouldCleanText] answers [true] and
    below which the walk goes on: Heading, TableCell, Document and
    ListItem. *)
Definition collapses (n : Node) : bool :=
  match n with
  | Container (Heading _) _ | Container (TableCell _ _) _
  | Container Document _ | Container (ListItem _) _ => true
  | _ => false
  end.

(** The nodes of a tree, each with the way up from it: [inTree up n c]
    says that [c] is [n], which hangs below [up], or a node below [n]. *)
Inductive inTree : Path -> Node -> Cursor -> Prop :=
| inTree_root (up : Path) (n : Node) :
    inTree up n {| self := n; path := up |}
| inTree_child (up : Path) (k : ContainerKind) (children : list Node)
               (i : nat) (child : Node) (c : Cursor) :
    nth_error children i = Some child ->
    inTree ((Container k children, i) :: up) child c ->
    inTree up (Container k children) c.

(** [visited up n s c sc]: the walk of [n], started in the state [s],
    calls [RenderNode] on [c], entering, in the state [sc].  This follows
    [Walk]: the first call is on [n] itself, in [s]; the walk goes on to
    the child at position [i] when the entry of [n] answered [GoToNext]
    and the walks of the children before it have returned, and it enters
    that child in the state they left. *)
Inductive visited : Path -> Node -> St -> Cursor -> St -> Prop :=
| visited_root (up : Path) (n : Node) (s : St) :
    visited up n s {| self := n; path := up |} s
| visited_child (up : Path) (k : ContainerKind) (children : list Node)
                (s s1 : St) (i : nat) (child : Node) (si : St)
                (c : Cursor) (sc : St) :
    RenderNode {| self := Container k children; path := up |} true s
    = Ok (GoToNext, s1) ->
    nth_error children i = Some child ->
    walkChildren up (Container k children) 0 (firstn i children) s1
    = Ok (GoToNext, si) ->
    visited ((Container k children, i) :: up) child si c sc ->
    visited up (Container k children) s c sc.

(** A walk of [n] that returns has not been terminated. *)
Definition walk_goes_on (n : Node) : Prop :=
  forall up s status s', Walk up n s = Ok (status, s') -> status = GoToNext.

(** The rule under a first-level heading: one dash for every column right
    of the left padding. *)
Definition ruleOf (lineWidth leftPad : Z) : gostring :=
  concat (repeat dash (Z.to_nat (lineWidth - leftPad))).

(** [count] blanks. *)
Definition blanks (count : Z) : gostring :=
  concat (repeat [SP] (Z.to_nat count)).

End Renderer.

(** ** The heading numbering engine *)

(** Modelled from the spec: the heading numbering engine ([numbering.go] is
    not among the sources).  Six counters, one per heading level, all zero
    at the start.  [Observe level] increments the counter of [level] and
    zeroes the counters of the deeper levels; [Render] prints the nonzero
    counters, in level order, joined by a dot.  The specification's own
    example, levels 1, 2, 2, 1, 3 giving a last label "2.1" although level 2
    was reset by the second level-1 heading, fixes which counters [Render]
    prints. *)
Module SpecNumbering.

Definition counters : Type := list Z.

Definition zero : counters := [0; 0; 0; 0; 0; 0].

Definition observeAt (level : Z) (i : nat) (c : Z) : Z :=
  let l := Z.of_nat (S i) in
  if l =? level then c + 1
  else if level <? l then 0
  else c.

Definition Observe (cs : counters) (level : Z) : counters :=
  mapi_from (observeAt level) 0%nat cs.

Definition Render (cs : counters) : gostring :=
  Join (map Itoa (filter (fun c => negb (c =? 0)) cs)) (str ".").

(** The labels of a run of headings, in order. *)
Fixpoint labels (cs : counters) (levels : list Z) : list gostring :=
  match levels with
  | [] => []
  | level :: rest =>
      let cs' := Observe cs level in
      Render cs' :: labels cs' rest
  end.

#[global] Instance engine : headingNumbering.ops := {
  headingNumbering.t := counters;
  headingNumbering.zero := zero;
  headingNumbering.Observe := Observe;
  headingNumbering.Render := Render
}.

End SpecNumbering.

(** ** A plain terminal

    One implementation of the collaborators, used to run the renderer on
    concrete documents: colour functions that leave the text as it is (what
    the colour library does when colours are off), the usual SGR codes,
    wrapping that pads every line and breaks none, a table that lists its
    cells. *)
Module Plain.

Definition ESC : rune := 27.

#[global] Instance plainColors : colors.ops := {
  colors.boldOn := ESC :: str "[1m";
  colors.italicOn := ESC :: str "[3m";
  colors.italicOff := ESC :: str "[23m";
  colors.crossedOutOn := ESC :: str "[9m";
  colors.crossedOutOff := ESC :: str "[29m";
  colors.greenOn := ESC :: str "[32m";
  colors.resetAll := ESC :: str "[0m";
  colors.colorOff := ESC :: str "[39m";
  colors.Green := fun s => s;
  colors.GreenBold := fun s => s;
  colors.Blue := fun s => s;
  colors.BlueBgItalic := fun s => s;
  colors.Red := fun s => s;
  colors.shade := fun _ _ s => s;
  colors.defaultHeadingShades := [];
  colors.defaultQuoteShades := []
}.

Definition padLines (first rest text : gostring) : gostring :=
  match Split text LF with
  | [] => first
  | l :: ls => Join ((first ++ l) :: map (fun x => rest ++ x) ls) [LF]
  end.

#[global] Instance plainText : text.ops := {
  text.WrapWithPad := fun s _ pad => padLines pad pad s;
  text.WrapWithPadIndent := fun s _ indent pad => padLines indent pad s;
  text.Len := fun s => Z.of_nat (length s);
  text.EscapeState := bool;
  text.EscapeState_zero := false;
  text.Witness := fun es _ => es;
  text.set_Bold := fun _ b => b;
  text.FormatString := fun es => if es then ESC :: str "[1m" else []
}.

Record table : Type := mkTable {
  header : list (gostring * CellAlign);
  body : list (list (gostring * CellAlign))
}.

Definition addBody (t : table) (cell : gostring * CellAlign) : table :=
  match rev (body t) with
  | [] => mkTable (header t) [[cell]]
  | last :: before =>
      mkTable (header t) (rev before ++ [last ++ [cell]])
  end.

Definition showRow (row : list (gostring * CellAlign)) : gostring :=
  Join (map fst row) (str "|") ++ [LF].

#[global] Instance plainTable : tableRenderer.ops := {
  tableRenderer.t := table;
  tableRenderer.newTableRenderer := mkTable [] [];
  tableRenderer.AddHeaderCell :=
    fun t s a => mkTable (header t ++ [(s, a)]) (body t);
  tableRenderer.AddBodyCell := fun t s a => addBody t (s, a);
  tableRenderer.NextBodyRow := fun t => mkTable (header t) (body t ++ [[]]);
  tableRenderer.Render :=
    fun t _ _ => concat (map showRow (header t :: body t))
}.

End Plain.

(** ** Sample documents, rendered on the plain terminal *)
Module Sample.
Import Plain.

Definition hello : gostring := str "Hello" ++ LF :: str "World".

Definition txt (s : String.string) : Node := Leaf Text (str s).

(** A fresh renderer, 80 columns wide with a left padding of 2, about to
    write its first byte. *)
Definition start : St := mkSt (NewRenderer 80 2 []) [] 0%nat 0%nat.

(** [start] with [acc] accumulated, a one-shot [indent] set and, when
    [inTable] holds, a table under construction. *)
Definition busy (acc indent : gostring) (inTable : bool) : St :=
  mkSt (set_table
          (if inTable then Some tableRenderer.newTableRenderer else None)
          (set_indent indent
             (set_inlineAccumulator acc (NewRenderer 80 2 []))))
       [] 0%nat 0%nat.

(** A heading, a paragraph, a quotation that holds a list, an ordered
    list, a code block, and a paragraph with a link and an image. *)
Definition document : Node :=
  Container Document
    [ Container (Heading 1) [txt "Title"];
      Container Paragraph [Leaf Text hello];
      Container BlockQuote
        [ Container Paragraph [Leaf Text hello];
          Container BlockQuote
            [ Container List
                [ Container (ListItem 0)
                    [Container Paragraph [txt "quoted item"]] ] ] ];
      Container List
        [ Container (ListItem ListTypeOrdered)
            [Container Paragraph [txt "one"]];
          Container (ListItem ListTypeOrdered)
            [Container Paragraph [txt "two"]] ];
      Leaf CodeBlock (str "code" ++ [LF]);
      Container Paragraph
        [ Container (Link (str "http://example.org") []) [txt "label"];
          Container (Image (str "logo.png") []) [txt "logo"] ] ].

(** A quotation whose paragraph holds a Text that is the lone line
    break, and the way down to that Text. *)
Definition quotedBreak : Node :=
  Container BlockQuote
    [Container Paragraph [txt "a"; Leaf Text [LF]; txt "b"]].

Definition atQuotedBreak : Cursor :=
  {| self := Leaf Text [LF];
     path := [ (Container Paragraph [txt "a"; Leaf Text [LF]; txt "b"],
                1%nat);
               (quotedBreak, 0%nat);
               (Container Document [quotedBreak], 0%nat) ] |}.

(** A paragraph followed by a heading, and the paragraph's place. *)
Definition atParagraph : Cursor :=
  let p := Container Paragraph [txt "body"] in
  let h := Container (Heading 2) [txt "next"] in
  {| self := p; path := [(Container Document [p; h], 0%nat)] |}.




(** A quotation of one paragraph, and the way down to its text. *)
Definition quotation : Node :=
  Container BlockQuote [Container Paragraph [Leaf Text hello]].

Definition atQuoted : Cursor :=
  {| self := Leaf Text hello;
     path := [ (Container Paragraph [Leaf Text hello], 0%nat);
               (quotation, 0%nat);
               (Container Document [quotation], 0%nat) ] |}.

(** A paragraph that holds a link, or an image, around the text
    "Hello\nWorld", and the way down to the text below the link. *)
Definition linked : Node :=
  Container (Link (str "u") []) [Leaf Text hello].

Definition linkDoc : Node :=
  Container Document [Container Paragraph [linked]].

Definition atLinked : Cursor :=
  {| self := Leaf Text hello;
     path := [ (linked, 0%nat);
               (Container Paragraph [linked], 0%nat);
               (linkDoc, 0%nat) ] |}.


(** A paragraph at the root of the document. *)
Definition paragraphDoc (children : list Node) : Node :=
  Container Document [Container Paragraph children].

End Sample.

(** ** Induction on the tree *)

Section NodeInduction.

Variable P : Node -> Prop.
Hypothesis leaf_case : forall k literal, P (Leaf k literal).
Hypothesis container_case :
  forall k children, Forall P children -> P (Container k children).

Fixpoint Node_induction (n : Node) : P n :=
  match n with
  | Leaf k literal => leaf_case k literal
  | Container k children =>
      container_case k children
        ((fix all (l : list Node) : Forall P l :=
            match l with
            | [] => Forall_nil P
            | x :: l' => Forall_cons x (Node_induction x) (all l')
            end) children)
  end.

End NodeInduction.

(** * Properties *)

(** Runs the monad's plumbing on a state given by its fields. *)
Ltac run_monad :=
  cbv [bind getR modR ret panic liftResult WriteString drainAccumulator
       Fprint Fprintln withTable withAccumulator
       set_padAccumulator set_indent set_inlineAccumulator
       set_headingNumbering set_headingShade set_blockQuoteLevel
       set_blockQuoteShade set_table];
  cbn [rd out pushes pops lineWidth leftPad padAccumulator indent
       inlineAccumulator headingNumbering headingShade blockQuoteLevel
       blockQuoteShade table fst snd negb].


(** ** Splitting, joining and trimming *)

Lemma Split_no_break (s : gostring) :
  ~ In LF s -> Split s LF = [s].
Proof.
  induction s as [|r s IH]; intros H; simpl; [reflexivity|].
  destruct (Z.eqb_spec r LF) as [->|_].
  - exfalso. apply H. now left.
  - rewrite IH; [reflexivity|]. intros Hin. apply H. now right.
Qed.





Lemma removeLineBreak_no_break (text : gostring) :
  ~ In LF text -> removeLineBreak text = text.
Proof.
  intros H. unfold removeLineBreak. now rewrite Split_no_break.
Qed.





Lemma streq_true (a b : gostring) : streq a b = true -> a = b.
Proof. unfold streq. destruct (list_eq_dec Z.eq_dec a b); congruence. Qed.

Lemma streq_neq (a b : gostring) : a <> b -> streq a b = false.
Proof. unfold streq. destruct (list_eq_dec Z.eq_dec a b); congruence. Qed.

(** ** What single visits do *)

Section Visits.

Context {C : colors.ops} {X : text.ops}
        {HN : headingNumbering.ops} {TR : tableRenderer.ops}.
Import colors text.

Lemma pad_margin (s : St) :
  0 <= leftPad (rd s) -> pad s = Ok (margin (rd s), s).
Proof.
  intros H. unfold pad, bind, getR, repeatOrPanic, Repeat, margin.
  destruct (Z.ltb_spec (leftPad (rd s)) 0); [lia|]. reflexivity.
Qed.

(** C6: leaving a Strong span appends, to the text accumulated so far,
    the full reset followed by the escape state witnessed in that text
    with its bold attribute cleared; nothing else is written and no other
    part of the state changes. *)
Theorem strong_exit_resets_and_reapplies
        (children : list Node) (up : Path) (s : St) :
  let acc := inlineAccumulator (rd s) in
  let snapshot := set_Bold (Witness EscapeState_zero acc) false in
  RenderNode {| self := Container Strong children; path := up |} false s
  = Ok (GoToNext, withAccumulator (acc ++ resetAll ++ FormatString snapshot) s).
Proof.
  cbv [RenderNode self renderStrongExit bind getR WriteString modR ret
       withAccumulator].
  cbn. now rewrite <- app_assoc.
Qed.


(** C10: entering a Link whose first child is a leaf appends the label
    built from that child's literal alone and asks to skip the children,
    so the walk of the Link visits none of them; a Link without children,
    or whose first child is a container, panics with a nil dereference on
    entry, and so does the walk. *)
Theorem link_label_from_first_child
        (Destination Title : gostring) (children : list Node) (up : Path)
        (s : St) :
  let node := Container (Link Destination Title) children in
  RenderNode {| self := node; path := up |} true s
  = match children with
    | Leaf _ literal :: _ =>
        Ok (SkipChildren,
            withAccumulator
              (inlineAccumulator (rd s)
                 ++ linkText literal Destination Title) s)
    | _ => Panic NilDereference
    end
  /\ Walk up node s
     = match children with
       | Leaf _ literal :: _ =>
           Ok (GoToNext,
               withAccumulator
                 (inlineAccumulator (rd s)
                    ++ linkText literal Destination Title) s)
       | _ => Panic NilDereference
       end.
Proof.
  assert (E : RenderNode {| self := Container (Link Destination Title)
                                      children; path := up |} true s
              = match children with
                | Leaf _ literal :: _ =>
                    Ok (SkipChildren,
                        withAccumulator
                          (inlineAccumulator (rd s)
                             ++ linkText literal Destination Title) s)
                | _ => Panic NilDereference
                end).
  { cbv [RenderNode self renderLinkEnter GetFirstChild GetChildren AsLeaf
         hd_error bind getR WriteString modR ret panic withAccumulator
         linkText].
    destruct children as [|[k literal|k cs] rest]; cbn; try reflexivity.
    destruct (0 <? Z.of_nat (length Title)); cbn;
      repeat rewrite <- app_assoc; reflexivity. }
  split; [exact E|].
  cbn zeta. cbn [Walk]. unfold bind at 1. rewrite E.
  destruct children as [|[k literal|k cs] rest]; reflexivity.
Qed.

(** C7 (as the code has it): entering an Image never fetches anything and
    never panics.  For every Image it appends "![alt](destination)" and a
    line break to the accumulator, alt and destination freed of line
    breaks and surrounding whitespace and the destination in blue, and
    asks to skip the children; the walk of the Image node goes on to the
    next node from that state. *)
Theorem image_enter_textual
        (Destination Title : gostring) (children : list Node) (up : Path)
        (s : St) :
  let node := Container (Image Destination Title) children in
  let s' :=
    withAccumulator
      (inlineAccumulator (rd s) ++ imageText (imageAlt children) Destination)
      s in
  RenderNode {| self := node; path := up |} true s = Ok (SkipChildren, s')
  /\ Walk up node s = Ok (GoToNext, s').
Proof.
  assert (E : RenderNode {| self := Container (Image Destination Title)
                                      children; path := up |} true s
              = Ok (SkipChildren,
                    withAccumulator
                      (inlineAccumulator (rd s)
                         ++ imageText (imageAlt children) Destination) s)).
  { destruct s as [[lw lp pa ind acc hn hs bq bqs tb] o pu po].
    cbv [RenderNode self renderImageEnter renderImage imageText imageAlt].
    run_monad. repeat rewrite <- app_assoc. reflexivity. }
  split; [exact E|].
  cbn zeta. cbn [Walk]. unfold bind at 1. rewrite E. reflexivity.
Qed.

Lemma isSeparatedBlock_spec (next : Node) :
  isSeparatedBlock next = true <-> wantsSeparation next.
Proof.
  unfold wantsSeparation. split.
  - destruct next as [[] literal|[] cs]; cbn; intros H;
      try discriminate; eauto 8.
  - intros [[cs ->]|[[level [cs ->]]|[[l ->]|[[l ->]|[l ->]]]]];
      reflexivity.
Qed.

(** C5: leaving a Paragraph, with a left padding that is not negative,
    empties the accumulator, wraps what it held (with the one-shot indent
    on the first line when one is set, and clears that indent), writes
    the block and one line break, and writes one more line break exactly
    when a next sibling exists and is a Paragraph, Heading,
    HorizontalRule, CodeBlock or HTMLBlock. *)
Theorem paragraph_exit_block
        (children : list Node) (up : Path) (s : St) :
  0 <= leftPad (rd s) ->
  let c := {| self := Container Paragraph children; path := up |} in
  let r := rd s in
  let content := inlineAccumulator r in
  let block :=
    if streq (indent r) []
    then WrapWithPad content (lineWidth r) (margin r)
    else WrapWithPadIndent content (lineWidth r) (indent r) (margin r) in
  exists extra,
    RenderNode c false s
    = Ok (GoToNext,
          mkSt (set_indent [] (set_inlineAccumulator [] r))
               (out s ++ block ++ [LF] ++ extra) (pushes s) (pops s))
    /\ ((exists next, GetNextNode c = Some next /\ wantsSeparation next)
        -> extra = [LF])
    /\ (~ (exists next, GetNextNode c = Some next /\ wantsSeparation next)
        -> extra = []).
Proof.
  intros Hpad c r content block.
  exists (match GetNextNode c with
          | Some next => if isSeparatedBlock next then [LF] else []
          | None => []
          end).
  split; [|split].
  - subst c r content block.
    cbv [RenderNode self renderParagraph drainAccumulator bind getR modR
         ret negb Fprintln Fprint].
    cbn [rd out pushes pops set_inlineAccumulator inlineAccumulator indent
         lineWidth].
    assert (Hm : forall o p q,
               pad (mkSt (set_inlineAccumulator [] (rd s)) o p q)
               = Ok (margin (rd s),
                     mkSt (set_inlineAccumulator [] (rd s)) o p q)).
    { intros. rewrite pad_margin by exact Hpad. reflexivity. }
    destruct (streq (indent (rd s)) []) eqn:Hi.
    + apply streq_true in Hi. rewrite Hm.
      cbn [rd out pushes pops].
      destruct (GetNextNode _) as [next|]; [destruct (isSeparatedBlock next)|];
        cbn; repeat rewrite <- app_assoc; cbn;
        unfold set_indent, set_inlineAccumulator; cbn; rewrite Hi;
        reflexivity.
    + rewrite Hm. cbn [rd out pushes pops].
      destruct (GetNextNode _) as [next|]; [destruct (isSeparatedBlock next)|];
        cbn; repeat rewrite <- app_assoc; reflexivity.
  - intros [next [-> Hw]].
    apply isSeparatedBlock_spec in Hw. now rewrite Hw.
  - intros Hno. destruct (GetNextNode c) as [next|]; [|reflexivity].
    destruct (isSeparatedBlock next) eqn:E; [|reflexivity].
    exfalso. apply Hno. exists next. split; [reflexivity|].
    now apply isSeparatedBlock_spec.
Qed.

(** The kinds [shouldCleanText] stops at, and what it answers there. *)
Lemma cleanVerdict_kinds (n : Node) :
  (cleanVerdict n = Some false <-> exists cs, n = Container BlockQuote cs)
  /\ (cleanVerdict n = Some true <->
      exists cs,
        (exists level, n = Container (Heading level) cs)
        \/ (exists d t, n = Container (Image d t) cs)
        \/ (exists d t, n = Container (Link d t) cs)
        \/ (exists h a, n = Container (TableCell h a) cs)
        \/ n = Container Document cs
        \/ (exists flags, n = Container (ListItem flags) cs)).
Proof.
  split; split.
  - destruct n as [k l|[] cs]; cbn; try discriminate; eauto.
  - intros [cs ->]. reflexivity.
  - destruct n as [k l|[] cs]; cbn; try discriminate; intros _; exists cs;
      eauto 12.
  - intros [cs [[x ->]|[[d [t ->]]|[[d [t ->]]|[[h [a ->]]|[->|[f ->]]]]]]];
      reflexivity.
Qed.

Lemma shouldCleanText_nearest (pre : Path) :
  forall (n anc : Node) (i : nat) (post : Path) (b : bool),
    cleanVerdict n = None ->
    Forall (fun step => cleanVerdict (fst step) = None) pre ->
    cleanVerdict anc = Some b ->
    shouldCleanText_from n (pre ++ (anc, i) :: post) = Ok b.
Proof.
  induction pre as [|[p j] pre IH]; intros n anc i post b Hn Hpre Hanc.
  - cbn [app shouldCleanText_from]. rewrite Hn.
    destruct post; cbn [shouldCleanText_from]; now rewrite Hanc.
  - inversion Hpre as [|? ? Hp Hrest]; subst. cbn in Hp.
    cbn [app shouldCleanText_from]. rewrite Hn.
    now apply IH.
Qed.

(** One call of [RenderNode] on a Text node whose literal is not the
    lone line break: with [pre] the ancestors below [anc] at which
    [shouldCleanText] does not stop, the answer it gives at [anc] decides
    whether the literal is accumulated as it is or through
    [removeLineBreak]. *)
Lemma text_visit
        (Literal : gostring) (pre : Path) (anc : Node) (i : nat)
        (post : Path) (clean entering : bool) (s : St) :
  Literal <> [LF] ->
  Forall (fun step => cleanVerdict (fst step) = None) pre ->
  cleanVerdict anc = Some clean ->
  RenderNode {| self := Leaf Text Literal;
                path := pre ++ (anc, i) :: post |} entering s
  = Ok (GoToNext,
        withAccumulator
          (inlineAccumulator (rd s)
             ++ (if clean then removeLineBreak Literal else Literal)) s).
Proof.
  intros Hlit Hpre Hanc.
  cbv [RenderNode self renderText shouldCleanText path].
  rewrite (streq_neq _ _ Hlit).
  rewrite (shouldCleanText_nearest pre (Leaf Text Literal) anc i post clean
             eq_refl Hpre Hanc).
  destruct s as [[lw lp pa ind acc hn hs bq bqs tb] o pu po].
  run_monad. reflexivity.
Qed.

(** A Text node that is the lone line break adds nothing, wherever it
    stands. *)
Lemma lone_break_skipped (up : Path) (entering : bool) (s : St) :
  RenderNode {| self := Leaf Text [LF]; path := up |} entering s
  = Ok (GoToNext, s).
Proof. reflexivity. Qed.

End Visits.

(** ** The padding stack over a walk *)

Ltac state_fields_in H :=
  cbn [rd out pushes pops lineWidth leftPad padAccumulator indent
       inlineAccumulator headingNumbering headingShade blockQuoteLevel
       blockQuoteShade table fst snd negb] in H.

(** Case analysis on the innermost test that blocks a computation. *)
Ltac break_match_in H :=
  repeat (match type of H with
          | context [match ?x with _ => _ end] =>
              lazymatch x with
              | context [match _ with _ => _ end] => fail
              | _ => let E := fresh "E" in
                     revert H; destruct x eqn:E; intros H
              end
          end;
          cbv beta iota in H; state_fields_in H; try discriminate H).

Ltac unfold_visit_in H :=
  cbv [RenderNode self path renderListItem renderParagraph renderHeading
       renderHorizontalRule renderStrongExit renderLinkEnter
       renderImageEnter renderImage renderText renderTableCellExit
       renderCodeBlock renderFormattedCodeBlock renderHTMLBlock
       pad addPad popPad repeatOrPanic
       bind getR modR ret panic liftResult WriteString drainAccumulator
       Fprint Fprintln withTable
       set_padAccumulator set_indent set_inlineAccumulator
       set_headingNumbering set_headingShade set_blockQuoteLevel
       set_blockQuoteShade set_table] in H;
  cbn [rd out pushes pops lineWidth leftPad padAccumulator indent
       inlineAccumulator headingNumbering headingShade blockQuoteLevel
       blockQuoteShade table fst snd negb] in H.

Section Balance.

Context {C : colors.ops} {X : text.ops}
        {HN : headingNumbering.ops} {TR : tableRenderer.ops}.
Import colors text.

Lemma enter_effect (k : ContainerKind) (children : list Node) (up : Path)
      (s s1 : St) (status : WalkStatus) :
  RenderNode {| self := Container k children; path := up |} true s
  = Ok (status, s1) ->
  status <> Terminate
  /\ pops s1 = pops s
  /\ blockQuoteLevel (rd s1)
     = (if isQuote k then int_add (blockQuoteLevel (rd s)) 1
        else blockQuoteLevel (rd s))
  /\ (if opensPad k
      then (exists p, padAccumulator (rd s1) = padAccumulator (rd s) ++ [p])
           /\ pushes s1 = S (pushes s)
      else padAccumulator (rd s1) = padAccumulator (rd s)
           /\ pushes s1 = pushes s).
Proof.
  intros H.
  destruct s as [[lw lp pa ind acc hn hs bq bqs tb] o pu po].
  destruct k; unfold opensPad, isQuote; unfold_visit_in H.
  all: break_match_in H.
  all: inversion H; subst; clear H; cbn.
  all: repeat split; try discriminate; eauto.
Qed.

Lemma exit_effect (k : ContainerKind) (children : list Node) (up : Path)
      (s s1 : St) (status : WalkStatus) :
  RenderNode {| self := Container k children; path := up |} false s
  = Ok (status, s1) ->
  status <> Terminate
  /\ pushes s1 = pushes s
  /\ blockQuoteLevel (rd s1)
     = (if isQuote k then int_sub (blockQuoteLevel (rd s)) 1
        else blockQuoteLevel (rd s))
  /\ (if opensPad k
      then padAccumulator (rd s1) = removelast (padAccumulator (rd s))
           /\ pops s1 = S (pops s)
      else padAccumulator (rd s1) = padAccumulator (rd s)
           /\ pops s1 = pops s).
Proof.
  intros H.
  destruct s as [[lw lp pa ind acc hn hs bq bqs tb] o pu po].
  destruct k; unfold opensPad, isQuote; unfold_visit_in H.
  all: break_match_in H.
  all: inversion H; subst; clear H; cbn.
  all: repeat split; try discriminate; eauto.
Qed.

Lemma balanced_refl (s : St) : balanced s s.
Proof. unfold balanced. auto. Qed.

Lemma balanced_trans (s1 s2 s3 : St) :
  balanced s1 s2 -> balanced s2 s3 -> balanced s1 s3.
Proof.
  unfold balanced. intros [A1 [B1 C1]] [A2 [B2 C2]].
  repeat split; try congruence. lia.
Qed.

Lemma leaf_effect (k : LeafKind) (literal : gostring) (up : Path)
      (entering : bool) (s s1 : St) (status : WalkStatus) :
  RenderNode {| self := Leaf k literal; path := up |} entering s
  = Ok (status, s1) ->
  status <> Terminate /\ balanced s s1.
Proof.
  intros H.
  destruct s as [[lw lp pa ind acc hn hs bq bqs tb] o pu po].
  destruct k; unfold balanced; unfold_visit_in H.
  all: break_match_in H.
  all: inversion H; subst; clear H; cbn.
  all: repeat split; try discriminate; eauto; try lia.
  all: match goal with
       | E : ?pa ++ [?x] = ?g :: ?l |- _ = ?pa =>
           change (removelast (g :: l) = pa);
           rewrite <- E; apply removelast_last
       end.
Qed.

Lemma wrap_int_range (z : Z) : is_int (wrap_int z).
Proof.
  unfold is_int, wrap_int.
  pose proof (Z.mod_pos_bound (z + 2 ^ 63) (2 ^ 64) ltac:(lia)). lia.
Qed.

(** Leaving a blockquote undoes what entering it did to the level. *)
Lemma level_restored (level : Z) :
  is_int level -> int_sub (int_add level 1) 1 = level.
Proof.
  intros H. unfold int_sub, int_add, wrap_int.
  replace ((level + 1 + 2 ^ 63) mod 2 ^ 64 - 2 ^ 63 - 1 + 2 ^ 63)
    with ((level + 1 + 2 ^ 63) mod 2 ^ 64 - 1) by lia.
  rewrite Zminus_mod_idemp_l.
  replace (level + 1 + 2 ^ 63 - 1) with (level + 2 ^ 63) by lia.
  unfold is_int in H. rewrite Z.mod_small by lia. lia.
Qed.

(** The children loop inside [Walk] is [walkChildren]. *)
Lemma Walk_container (k : ContainerKind) (children : list Node)
      (up : Path) (s : St) :
  let n := Container k children in
  let c := {| self := n; path := up |} in
  Walk up n s
  = match RenderNode c true s with
    | Panic p => Panic p
    | Ok (Terminate, s1) =>
        match RenderNode c false s1 with
        | Ok (_, s2) => Ok (Terminate, s2)
        | Panic p => Panic p
        end
    | Ok (status, s1) =>
        match (match status with
               | SkipChildren => Ok (GoToNext, s1)
               | _ => walkChildren up n 0 children s1
               end) with
        | Panic p => Panic p
        | Ok (Terminate, s2) => Ok (Terminate, s2)
        | Ok (_, s2) =>
            match RenderNode c false s2 with
            | Panic p => Panic p
            | Ok (Terminate, s3) => Ok (Terminate, s3)
            | Ok (_, s3) => Ok (GoToNext, s3)
            end
        end
    end.
Proof.
  cbn zeta. cbn [Walk]. unfold bind at 1.
  destruct (RenderNode _ true s) as [[status s1]|p]; [|reflexivity].
  assert (L : forall l i s0,
             (fix loop (i : nat) (l : list Node) {struct l}
                : M WalkStatus :=
                match l with
                | [] => ret GoToNext
                | child :: rest =>
                    bind (Walk ((Container k children, i) :: up) child)
                      (fun status =>
                         match status with
                         | Terminate => ret Terminate
                         | _ => loop (S i) rest
                         end)
                end) i l s0
             = walkChildren up (Container k children) i l s0).
  { induction l as [|child rest IH]; intros i s0; [reflexivity|].
    cbn [walkChildren]. unfold bind.
    destruct (Walk _ child s0) as [[st s0']|p]; [|reflexivity].
    destruct st; try apply IH; reflexivity. }
  destruct status; unfold bind; rewrite ?L; cbn [ret];
    repeat match goal with
           | |- context [match ?x with _ => _ end] =>
               lazymatch x with
               | context [match _ with _ => _ end] => fail
               | _ => destruct x
               end
           end; reflexivity.
Qed.

Lemma walkChildren_balanced (children : list Node) :
  Forall walk_balanced children ->
  forall up n i s status s',
    is_int (blockQuoteLevel (rd s)) ->
    walkChildren up n i children s = Ok (status, s') ->
    status = GoToNext /\ balanced s s'.
Proof.
  induction 1 as [|child rest Hchild _ IH]; intros up n i s status s' Hi H.
  - cbn in H. inversion H; subst. split; [reflexivity|apply balanced_refl].
  - cbn [walkChildren] in H. unfold bind in H.
    destruct (Walk _ child s) as [[st s1]|p] eqn:E; [|discriminate].
    destruct (Hchild _ _ _ _ Hi E) as [-> B1].
    assert (Hi1 : is_int (blockQuoteLevel (rd s1))).
    { destruct B1 as [_ [B _]]. now rewrite B. }
    destruct (IH _ _ _ _ _ _ Hi1 H) as [-> B2].
    split; [reflexivity|]. eapply balanced_trans; eassumption.
Qed.

(** Entry, a balanced middle and exit of a container are balanced. *)
Lemma container_balanced (k : ContainerKind) (children : list Node)
      (up : Path) (s s1 s2 s3 : St) (st1 st3 : WalkStatus) :
  is_int (blockQuoteLevel (rd s)) ->
  RenderNode {| self := Container k children; path := up |} true s
  = Ok (st1, s1) ->
  balanced s1 s2 ->
  RenderNode {| self := Container k children; path := up |} false s2
  = Ok (st3, s3) ->
  balanced s s3.
Proof.
  intros Hi E1 [Bp [Bl Bc]] E3.
  destruct (enter_effect _ _ _ _ _ _ E1) as [_ [Hpops [Hlvl Hpad]]].
  destruct (exit_effect _ _ _ _ _ _ E3) as [_ [Hpush [Hlvl3 Hpad3]]].
  unfold balanced. rewrite Hlvl3, Bl, Hlvl.
  split; [|split].
  - destruct (opensPad k).
    + destruct Hpad as [[p Hp] _]. destruct Hpad3 as [Hp3 _].
      rewrite Hp3, Bp, Hp. apply removelast_last.
    + destruct Hpad as [Hp _]. destruct Hpad3 as [Hp3 _]. congruence.
  - destruct (isQuote k); [now apply level_restored|reflexivity].
  - destruct (opensPad k).
    + destruct Hpad as [_ Hp]. destruct Hpad3 as [_ Hp3]. lia.
    + destruct Hpad as [_ Hp]. destruct Hpad3 as [_ Hp3]. lia.
Qed.

Lemma Walk_balanced (n : Node) : walk_balanced n.
Proof.
  induction n as [k literal|k children IH] using Node_induction;
    intros up s status s' Hi H.
  - cbn [Walk] in H. unfold bind in H.
    destruct (RenderNode _ true s) as [[st s1]|p] eqn:E; [|discriminate].
    apply leaf_effect in E. destruct E as [Hst B].
    destruct st; try congruence; inversion H; subst; auto.
  - rewrite Walk_container in H.
    destruct (RenderNode _ true s) as [[st s1]|p] eqn:E1; [|discriminate].
    pose proof (enter_effect _ _ _ _ _ _ E1) as [Hst [_ [Hlvl _]]].
    assert (Hi1 : is_int (blockQuoteLevel (rd s1))).
    { rewrite Hlvl. destruct (isQuote k); [apply wrap_int_range|exact Hi]. }
    destruct st; [| |congruence].
    + destruct (walkChildren _ _ _ _ s1) as [[st2 s2]|p] eqn:E2;
        [|discriminate].
      destruct (walkChildren_balanced _ IH _ _ _ _ _ _ Hi1 E2) as [-> B].
      destruct (RenderNode _ false s2) as [[st3 s3]|p] eqn:E3;
        [|discriminate].
      pose proof (exit_effect _ _ _ _ _ _ E3) as [Hst3 _].
      destruct st3; try congruence; inversion H; subst;
        (split; [reflexivity|]);
        eapply container_balanced; eassumption.
    + destruct (RenderNode _ false s1) as [[st3 s3]|p] eqn:E3;
        [|discriminate].
      pose proof (exit_effect _ _ _ _ _ _ E3) as [Hst3 _].
      destruct st3; try congruence; inversion H; subst;
        (split; [reflexivity|]);
        eapply container_balanced;
        try eassumption; apply balanced_refl.
Qed.

Lemma NewRenderer_fresh (lw lp : Z) (opts : list Options) :
  Forall exportedOption opts ->
  let r := NewRenderer lw lp opts in
  padAccumulator r = [] /\ blockQuoteLevel r = 0
  /\ lineWidth r = lw /\ leftPad r = lp
  /\ indent r = [] /\ inlineAccumulator r = []
  /\ headingNumbering r = headingNumbering.zero /\ table r = None.
Proof.
  intros Hopts. unfold NewRenderer.
  set (r0 := mkRenderer _ _ _ _ _ _ _ _ _ _).
  assert (H0 : padAccumulator r0 = [] /\ blockQuoteLevel r0 = 0
               /\ lineWidth r0 = lw /\ leftPad r0 = lp
               /\ indent r0 = [] /\ inlineAccumulator r0 = []
               /\ headingNumbering r0 = headingNumbering.zero
               /\ table r0 = None) by (cbn; auto 10).
  clearbody r0. revert r0 H0.
  induction Hopts as [|opt opts Hopt _ IH]; intros r0 H0; cbn; [exact H0|].
  apply IH. destruct Hopt; cbn; exact H0.
Qed.

(** C3: a render that runs to its end pushed as many pads as it popped;
    the pad accumulator is empty before the first node and empty again
    after the last exit, and the blockquote level is back at zero. *)
Theorem render_padding_balanced
        (doc : Node) (lineWidth leftPad : Z) (opts : list Options)
        (bytes : gostring) (final : St) :
  Forall exportedOption opts ->
  renderWith (NewRenderer lineWidth leftPad opts) doc = Ok (bytes, final) ->
  padAccumulator (NewRenderer lineWidth leftPad opts) = []
  /\ blockQuoteLevel (NewRenderer lineWidth leftPad opts) = 0
  /\ pushes final = pops final
  /\ padAccumulator (rd final) = []
  /\ blockQuoteLevel (rd final) = 0.
Proof.
  intros Hopts H.
  destruct (NewRenderer_fresh lineWidth leftPad opts Hopts)
    as [Hpad [Hlvl _]].
  unfold renderWith in H.
  destruct (Walk [] doc _) as [[status s']|p] eqn:E; [|discriminate].
  inversion H; subst.
  apply Walk_balanced in E.
  - destruct E as [_ [Bp [Bl Bc]]]. cbn in Bp, Bl, Bc.
    repeat split; try congruence. lia.
  - cbn. rewrite Hlvl. unfold is_int. lia.
Qed.

End Balance.

(** ** The Text nodes a walk visits *)

Section Visited.

Context {C : colors.ops} {X : text.ops}
        {HN : headingNumbering.ops} {TR : tableRenderer.ops}.
Import colors text.

(** The entry of a Link or an Image asks to skip the children; every
    other entry that returns lets the walk go on below. *)
Lemma enter_status (k : ContainerKind) (children : list Node) (up : Path)
      (s s' : St) (status : WalkStatus) :
  RenderNode {| self := Container k children; path := up |} true s
  = Ok (status, s') ->
  status = if isLinkOrImage (Container k children) then SkipChildren
           else GoToNext.
Proof.
  intros H.
  destruct s as [[lw lp pa ind acc hn hs bq bqs tb] o pu po].
  destruct k; unfold_visit_in H.
  all: break_match_in H.
  all: inversion H; subst; reflexivity.
Qed.

Lemma walkChildren_status (children : list Node) :
  Forall walk_goes_on children ->
  forall up n i s status s',
    walkChildren up n i children s = Ok (status, s') -> status = GoToNext.
Proof.
  induction 1 as [|child rest Hchild _ IH]; intros up n i s status s' H.
  - cbn in H. now inversion H.
  - cbn [walkChildren] in H. unfold bind in H.
    destruct (Walk _ child s) as [[st s1]|p] eqn:E; [|discriminate].
    rewrite (Hchild _ _ _ _ E) in H. eapply IH; eassumption.
Qed.

(** No visit answers [Terminate], so a walk that returns has gone
    through the whole tree. *)
Lemma Walk_status (n : Node) : walk_goes_on n.
Proof.
  induction n as [k literal|k children IH] using Node_induction;
    intros up s status s' H.
  - cbn [Walk] in H. unfold bind in H.
    destruct (RenderNode _ true s) as [[st s1]|p] eqn:E; [|discriminate].
    apply leaf_effect in E. destruct E as [Hst _].
    destruct st; try congruence; now inversion H.
  - rewrite Walk_container in H.
    destruct (RenderNode _ true s) as [[st s1]|p] eqn:E1; [|discriminate].
    pose proof (enter_effect _ _ _ _ _ _ E1) as [Hst _].
    destruct st; [| |congruence].
    + destruct (walkChildren _ _ _ _ s1) as [[st2 s2]|p] eqn:E2;
        [|discriminate].
      rewrite (walkChildren_status _ IH _ _ _ _ _ _ E2) in H.
      destruct (RenderNode _ false s2) as [[st3 s3]|p] eqn:E3;
        [|discriminate].
      pose proof (exit_effect _ _ _ _ _ _ E3) as [Hst3 _].
      destruct st3; try congruence; now inversion H.
    + destruct (RenderNode _ false s1) as [[st3 s3]|p] eqn:E3;
        [|discriminate].
      pose proof (exit_effect _ _ _ _ _ _ E3) as [Hst3 _].
      destruct st3; try congruence; now inversion H.
Qed.

(** The children loop, cut in two. *)
Lemma walkChildren_app (l1 l2 : list Node) :
  forall up n i s,
    walkChildren up n i (l1 ++ l2) s
    = match walkChildren up n i l1 s with
      | Ok (Terminate, s1) => Ok (Terminate, s1)
      | Ok (_, s1) => walkChildren up n (i + length l1) l2 s1
      | Panic p => Panic p
      end.
Proof.
  induction l1 as [|x l1 IH]; intros up n i s.
  - cbn. now rewrite Nat.add_0_r.
  - cbn [app walkChildren length]. unfold bind.
    destruct (Walk _ x s) as [[st s1]|p]; [|reflexivity].
    destruct st; cbn [ret]; rewrite ?IH, ?Nat.add_succ_r; reflexivity.
Qed.

(** When the children loop returns, it has walked every child: the ones
    before position [i] have returned, and so has the one at [i], walked
    from the state they left. *)
Lemma walkChildren_child (children : list Node) (i : nat) (child : Node)
      (up : Path) (n : Node) (s s' : St) (status : WalkStatus) :
  walkChildren up n 0 children s = Ok (status, s') ->
  nth_error children i = Some child ->
  exists si status' s'',
    walkChildren up n 0 (firstn i children) s = Ok (GoToNext, si)
    /\ Walk ((n, i) :: up) child si = Ok (status', s'').
Proof.
  intros H Hnth.
  destruct (nth_error_split _ _ Hnth) as [l1 [l2 [-> Hlen]]].
  rewrite firstn_app, firstn_all2 by lia.
  replace (i - length l1)%nat with 0%nat by lia.
  cbn [firstn]. rewrite app_nil_r.
  rewrite walkChildren_app in H.
  destruct (walkChildren up n 0 l1 s) as [[st1 si]|p] eqn:E1;
    [|discriminate].
  assert (Hst1 : st1 = GoToNext).
  { eapply walkChildren_status; [|exact E1].
    apply Forall_forall. intros x _. apply Walk_status. }
  subst st1. cbn [Nat.add] in H. rewrite Hlen in H.
  cbn [walkChildren] in H. unfold bind in H.
  destruct (Walk ((n, i) :: up) child si) as [[st2 s2]|p] eqn:E2;
    [|discriminate].
  exists si, st2, s2. split; [reflexivity|exact E2].
Qed.

Lemma inTree_path (up : Path) (n : Node) (c : Cursor) :
  inTree up n c -> exists pre, path c = pre ++ up.
Proof.
  induction 1 as [up n|up k children i child c Hnth _ [pre IH]].
  - exists []. reflexivity.
  - exists (pre ++ [(Container k children, i)]).
    rewrite IH, <- app_assoc. reflexivity.
Qed.

Lemma visited_inTree (up : Path) (n : Node) (s : St) (c : Cursor) (sc : St) :
  visited up n s c sc -> inTree up n c.
Proof.
  induction 1; [apply inTree_root|].
  eapply inTree_child; eassumption.
Qed.

(** The walk does not go below a Link or an Image. *)
Lemma visited_open (up : Path) (n : Node) (s : St) (c : Cursor) (sc : St) :
  visited up n s c sc ->
  exists pre,
    path c = pre ++ up
    /\ Forall (fun step => isLinkOrImage (fst step) = false) pre.
Proof.
  induction 1 as [up n s
                 |up k children s s1 i child si c sc Henter Hnth _ _
                    [pre [Hpath Hopen]]].
  - exists []. split; [reflexivity|constructor].
  - exists (pre ++ [(Container k children, i)]). split.
    + rewrite Hpath, <- app_assoc. reflexivity.
    + apply Forall_app. split; [exact Hopen|].
      constructor; [|constructor]. cbn [fst].
      apply enter_status in Henter.
      destruct (isLinkOrImage (Container k children));
        [discriminate Henter|reflexivity].
Qed.

(** In a walk that returns, every node with no Link and no Image above it
    is visited. *)
Lemma visited_complete (up : Path) (n : Node) (c : Cursor) :
  inTree up n c ->
  forall s status final pre,
    Walk up n s = Ok (status, final) ->
    path c = pre ++ up ->
    Forall (fun step => isLinkOrImage (fst step) = false) pre ->
    exists sc, visited up n s c sc.
Proof.
  induction 1 as [up n|up k children i child c Hnth Hin IH];
    intros s status final pre Hwalk Hpath Hopen.
  - exists s. apply visited_root.
  - destruct (inTree_path _ _ _ Hin) as [pre' Hpath'].
    assert (Hpre : pre = pre' ++ [(Container k children, i)]).
    { apply (app_inv_tail up). rewrite <- Hpath, Hpath', <- app_assoc.
      reflexivity. }
    subst pre. apply Forall_app in Hopen. destruct Hopen as [Hopen' Hn].
    inversion Hn as [|? ? Hk _]; subst. cbn [fst] in Hk.
    rewrite Walk_container in Hwalk.
    destruct (RenderNode _ true s) as [[st1 s1]|p] eqn:E1; [|discriminate].
    pose proof (enter_status _ _ _ _ _ _ E1) as Hst. rewrite Hk in Hst.
    subst st1.
    destruct (walkChildren _ _ _ _ s1) as [[st2 s2]|p] eqn:E2;
      [|discriminate].
    destruct (walkChildren_child _ _ _ _ _ _ _ _ E2 Hnth)
      as [si [st' [s'' [Ebefore Echild]]]].
    destruct (IH si st' s'' pre' Echild Hpath' Hopen') as [sc Hsc].
    exists sc. eapply visited_child; eassumption.
Qed.

(** In a render that returns, the nodes the walk visits are the nodes of
    the tree with no Link and no Image above them. *)
Lemma visited_iff (doc : Node) (s final : St) (status : WalkStatus)
      (c : Cursor) :
  Walk [] doc s = Ok (status, final) ->
  inTree [] doc c ->
  ((exists sc, visited [] doc s c sc)
   <-> Forall (fun step => isLinkOrImage (fst step) = false) (path c)).
Proof.
  intros Hwalk Hin. split.
  - intros [sc Hv]. destruct (visited_open _ _ _ _ _ Hv) as [pre [Hp Ho]].
    rewrite app_nil_r in Hp. now rewrite Hp.
  - intros Hopen.
    apply (visited_complete [] doc c Hin s status final (path c) Hwalk);
      [now rewrite app_nil_r|exact Hopen].
Qed.

(** A node on the way up from a visited node is no Link and no Image. *)
Lemma visited_ancestor (doc : Node) (s : St) (c : Cursor) (sc : St)
      (pre : Path) (anc : Node) (i : nat) (post : Path) :
  visited [] doc s c sc ->
  path c = pre ++ (anc, i) :: post ->
  isLinkOrImage anc = false.
Proof.
  intros Hv Hpath.
  destruct (visited_open _ _ _ _ _ Hv) as [pre' [Hp Ho]].
  rewrite app_nil_r in Hp. subst pre'. rewrite Hpath in Ho.
  apply Forall_app in Ho. destruct Ho as [_ Ho].
  now inversion Ho.
Qed.

(** The answers of [shouldCleanText], told apart by [collapses] once
    Link and Image are set aside. *)
Lemma cleanVerdict_open (anc : Node) (clean : bool) :
  cleanVerdict anc = Some clean ->
  isLinkOrImage anc = false ->
  if clean then collapses anc = true
  else exists cs, anc = Container BlockQuote cs.
Proof.
  destruct anc as [k l|[] cs]; cbn; intros H Ho;
    try discriminate; inversion H; subst; eauto.
Qed.


End Visited.

(** ** Whole renders of a text *)

Ltac run_walk :=
  cbv [RenderNode self path renderParagraph renderHeading renderText
       shouldCleanText shouldCleanText_from cleanVerdict GetNextNode
       GetChildren nth_error isSeparatedBlock isList parentIs GetParent
       pad addPad popPad repeatOrPanic
       bind getR modR ret panic liftResult WriteString drainAccumulator
       Fprint Fprintln withTable
       set_padAccumulator set_indent set_inlineAccumulator
       set_headingNumbering set_headingShade set_blockQuoteLevel
       set_blockQuoteShade set_table];
  cbn [rd out pushes pops lineWidth leftPad padAccumulator indent
       inlineAccumulator headingNumbering headingShade blockQuoteLevel
       blockQuoteShade table fst snd negb].

Section Rendered.

Context {C : colors.ops} {X : text.ops}
        {HN : headingNumbering.ops} {TR : tableRenderer.ops}.
Import colors text.

(** What [NewRenderer] returns, field by field. *)
Lemma NewRenderer_fields (lw lp : Z) (opts : list Options) :
  Forall exportedOption opts ->
  NewRenderer lw lp opts
  = mkRenderer lw lp [] [] [] headingNumbering.zero
      (headingShade (NewRenderer lw lp opts)) 0
      (blockQuoteShade (NewRenderer lw lp opts)) None.
Proof.
  intros Hopts.
  pose proof (NewRenderer_fresh lw lp opts Hopts) as F. cbn zeta in F.
  destruct (NewRenderer lw lp opts). cbn in *.
  destruct F as (? & ? & ? & ? & ? & ? & ? & ?). congruence.
Qed.

Lemma blanks_repeat (lp : Z) :
  0 <= lp -> Repeat [SP] lp = Some (blanks lp).
Proof.
  intros H. unfold Repeat, blanks.
  destruct (Z.ltb_spec lp 0); [lia|reflexivity].
Qed.

Lemma rule_repeat (lw lp : Z) :
  0 <= lp <= lw -> lw < 2 ^ 63 ->
  Repeat dash (int_sub lw lp) = Some (ruleOf lw lp).
Proof.
  intros H0 H1. unfold Repeat, ruleOf, int_sub, wrap_int.
  rewrite Z.mod_small by lia.
  replace (lw - lp + 2 ^ 63 - 2 ^ 63) with (lw - lp) by lia.
  destruct (Z.ltb_spec (lw - lp) 0); [lia|reflexivity].
Qed.

(** A paragraph of one text at the root of the document. *)
Lemma paragraph_render (literal : gostring) (lw lp : Z)
      (opts : list Options) :
  literal <> [LF] -> 0 <= lp -> Forall exportedOption opts ->
  Render (Container Document [Container Paragraph [Leaf Text literal]])
    lw lp opts
  = Ok (WrapWithPad (removeLineBreak literal) lw (blanks lp) ++ [LF]).
Proof.
  intros Hlit Hpad Hopts. unfold Render, renderWith.
  rewrite (NewRenderer_fields lw lp opts Hopts).
  set (hs := headingShade _). set (bqs := blockQuoteShade _).
  pose proof (blanks_repeat lp Hpad) as Hsp.
  cbn [Walk]. run_walk.
  rewrite (streq_neq _ _ Hlit). run_walk.
  change (streq (@nil rune) []) with true. run_walk.
  rewrite Hsp. run_walk. cbn. rewrite ?app_nil_r. reflexivity.
Qed.

(** The same paragraph inside a quotation. *)
Lemma quotation_render (literal : gostring) (lw lp : Z)
      (opts : list Options) :
  literal <> [LF] -> 0 <= lp -> Forall exportedOption opts ->
  Render (Container Document
            [Container BlockQuote
               [Container Paragraph [Leaf Text literal]]])
    lw lp opts
  = Ok (WrapWithPad literal lw
          (blanks lp ++ blockQuoteShade (NewRenderer lw lp opts) 1 bar)
          ++ [LF]).
Proof.
  intros Hlit Hpad Hopts. unfold Render, renderWith.
  rewrite (NewRenderer_fields lw lp opts Hopts).
  set (hs := headingShade _). set (bqs := blockQuoteShade _).
  pose proof (blanks_repeat lp Hpad) as Hsp.
  cbn [Walk]. run_walk.
  change (int_add 0 1) with 1.
  rewrite (streq_neq _ _ Hlit). run_walk.
  change (streq (@nil rune) []) with true. run_walk.
  rewrite Hsp. run_walk. cbn. rewrite ?app_nil_r. reflexivity.
Qed.

(** A heading of one text at the root of the document. *)
Lemma heading_render (literal : gostring) (level lw lp : Z)
      (opts : list Options) :
  literal <> [LF] -> 0 <= lp <= lw -> lw < 2 ^ 63 ->
  Forall exportedOption opts ->
  let label := headingNumbering.Render
                 (headingNumbering.Observe headingNumbering.zero level) in
  let title :=
    headingShade (NewRenderer lw lp opts) level
      (label ++ [SP] ++ removeLineBreak literal) in
  Render (Container Document [Container (Heading level) [Leaf Text literal]])
    lw lp opts
  = Ok (WrapWithPad title lw (blanks lp) ++ [LF]
          ++ (if level =? 1 then blanks lp ++ ruleOf lw lp ++ [LF] else [])
          ++ [LF]).
Proof.
  intros Hlit Hfit Hint Hopts. cbn zeta. unfold Render, renderWith.
  rewrite (NewRenderer_fields lw lp opts Hopts).
  set (hs := headingShade _). set (bqs := blockQuoteShade _).
  assert (Hpad : 0 <= lp) by lia.
  pose proof (blanks_repeat lp Hpad) as Hsp.
  pose proof (rule_repeat lw lp Hfit Hint) as Hrule.
  cbn [Walk]. run_walk.
  rewrite (streq_neq _ _ Hlit). run_walk.
  rewrite Hsp. run_walk.
  destruct (level =? 1).
  - repeat (progress (rewrite ?Hsp, ?Hrule; run_walk)). cbn.
    rewrite ?app_nil_r. repeat rewrite <- app_assoc. reflexivity.
  - run_walk. cbn. rewrite ?app_nil_r. repeat rewrite <- app_assoc.
    reflexivity.
Qed.

End Rendered.

(** ** Text, collapsed or kept *)

Section TextNodes.

Context {C : colors.ops} {X : text.ops}
        {HN : headingNumbering.ops} {TR : tableRenderer.ops}.
Import colors text.


(** C2 (as the code has it).  In a render that returns, the walk visits a
    Text node exactly when no Link and no Image stands above it.  A
    visited Text node that is the lone line break adds nothing.  For any
    other literal the nearest ancestor at which [shouldCleanText] stops
    decides, and it is a BlockQuote, a Heading, a TableCell, the Document
    or a ListItem: under a BlockQuote the literal is accumulated as it
    is, line breaks included; under one of the other four it is
    accumulated with its line breaks collapsed by [removeLineBreak].  So
    a paragraph at the root of the document is written as the wrapped
    collapsed text, the same paragraph inside a quotation as the wrapped
    text with its line breaks, behind the bar, and a heading as the
    wrapped title made of the label, a space and the collapsed text;
    "Hello\nWorld" collapses to "Hello World". *)
Theorem text_cleaned_by_nearest_ancestor :
  (forall (doc : Node) (s final : St) (status : WalkStatus) (c : Cursor)
          (literal : gostring),
      Walk [] doc s = Ok (status, final) ->
      inTree [] doc c -> self c = Leaf Text literal ->
      ((exists sc, visited [] doc s c sc)
       <-> Forall (fun step => isLinkOrImage (fst step) = false) (path c))
      /\ (forall sc,
             visited [] doc s c sc ->
             (literal = [LF] -> RenderNode c true sc = Ok (GoToNext, sc))
             /\ (literal <> [LF] ->
                 forall pre anc i post clean,
                   path c = pre ++ (anc, i) :: post ->
                   Forall (fun step => cleanVerdict (fst step) = None) pre ->
                   cleanVerdict anc = Some clean ->
                   (if clean then collapses anc = true
                    else exists cs, anc = Container BlockQuote cs)
                   /\ RenderNode c true sc
                      = Ok (GoToNext,
                            withAccumulator
                              (inlineAccumulator (rd sc)
                                 ++ (if clean then removeLineBreak literal
                                     else literal)) sc))))
  /\ (forall (literal : gostring) (lw lp : Z) (opts : list Options),
         literal <> [LF] -> 0 <= lp -> Forall exportedOption opts ->
         Render (Container Document
                   [Container Paragraph [Leaf Text literal]]) lw lp opts
         = Ok (WrapWithPad (removeLineBreak literal) lw (blanks lp) ++ [LF])
         /\ Render (Container Document
                      [Container BlockQuote
                         [Container Paragraph [Leaf Text literal]]])
              lw lp opts
            = Ok (WrapWithPad literal lw
                    (blanks lp
                       ++ blockQuoteShade (NewRenderer lw lp opts) 1 bar)
                    ++ [LF]))
  /\ (forall (literal : gostring) (level lw lp : Z) (opts : list Options),
         literal <> [LF] -> 0 <= lp <= lw -> lw < 2 ^ 63 ->
         Forall exportedOption opts ->
         let label :=
           headingNumbering.Render
             (headingNumbering.Observe headingNumbering.zero level) in
         let title :=
           headingShade (NewRenderer lw lp opts) level
             (label ++ [SP] ++ removeLineBreak literal) in
         Render (Container Document
                   [Container (Heading level) [Leaf Text literal]])
           lw lp opts
         = Ok (WrapWithPad title lw (blanks lp) ++ [LF]
                 ++ (if level =? 1 then blanks lp ++ ruleOf lw lp ++ [LF]
                     else [])
                 ++ [LF]))
  /\ removeLineBreak (str "Hello" ++ LF :: str "World") = str "Hello World".
Proof.
  split; [|split; [|split; [|reflexivity]]].
  - intros doc s final status c literal Hwalk Hin Hself.
    split; [exact (visited_iff doc s final status c Hwalk Hin)|].
    intros sc Hv. destruct c as [n up]. cbn [self path] in *. subst n.
    split.
    + intros ->. apply lone_break_skipped.
    + intros Hne pre anc i post clean Hpath Hpre Hanc. split.
      * apply cleanVerdict_open; [exact Hanc|].
        exact (visited_ancestor doc s _ sc pre anc i post Hv Hpath).
      * subst up. exact (text_visit _ pre anc i post clean true sc Hne
                           Hpre Hanc).
  - intros literal lw lp opts Hne Hpad Hopts. split.
    + exact (paragraph_render literal lw lp opts Hne Hpad Hopts).
    + exact (quotation_render literal lw lp opts Hne Hpad Hopts).
  - intros literal level lw lp opts Hne Hfit Hint Hopts.
    exact (heading_render literal level lw lp opts Hne Hfit Hint Hopts).
Qed.

End TextNodes.

(** ** The heading numbering engine *)

(** C4: from all counters zero, observing a level adds one to that level's
    counter and zeroes the deeper ones; the label is the nonzero counters
    joined by dots; the levels 1, 2, 2, 1, 3 give the labels "1", "1.1",
    "1.2", "2", "2.1" in this order. *)
Theorem heading_numbering_labels :
  (forall c1 c2 c3 c4 c5 c6 : Z,
      let cs := [c1; c2; c3; c4; c5; c6] in
      SpecNumbering.Observe cs 1 = [c1 + 1; 0; 0; 0; 0; 0]
      /\ SpecNumbering.Observe cs 2 = [c1; c2 + 1; 0; 0; 0; 0]
      /\ SpecNumbering.Observe cs 3 = [c1; c2; c3 + 1; 0; 0; 0]
      /\ SpecNumbering.Observe cs 4 = [c1; c2; c3; c4 + 1; 0; 0]
      /\ SpecNumbering.Observe cs 5 = [c1; c2; c3; c4; c5 + 1; 0]
      /\ SpecNumbering.Observe cs 6 = [c1; c2; c3; c4; c5; c6 + 1])
  /\ SpecNumbering.zero = [0; 0; 0; 0; 0; 0]
  /\ SpecNumbering.Render [1; 0; 0; 0; 0; 0] = str "1"
  /\ SpecNumbering.Render [2; 1; 3; 0; 0; 0] = str "2.1.3"
  /\ SpecNumbering.labels SpecNumbering.zero [1; 2; 2; 1; 3]
     = [str "1"; str "1.1"; str "1.2"; str "2"; str "2.1"].
Proof.
  split; [|repeat split; reflexivity].
  intros. repeat split; reflexivity.
Qed.

(** ** The properties at work on the sample documents *)

Import Plain Sample.

Lemma render_padding_balanced_witness :
  exists bytes final,
    renderWith (NewRenderer 80 2 []) document = Ok (bytes, final)
    /\ pushes final = 6%nat
    /\ (padAccumulator (NewRenderer 80 2 []) = []
        /\ blockQuoteLevel (NewRenderer 80 2 []) = 0
        /\ pushes final = pops final
        /\ padAccumulator (rd final) = []
        /\ blockQuoteLevel (rd final) = 0).
Proof.
  destruct (renderWith (NewRenderer 80 2 []) document)
    as [[bytes final]|p] eqn:E.
  - exists bytes, final. split; [reflexivity|]. split.
    + assert (H : match renderWith (NewRenderer 80 2 []) document with
                  | Ok (_, s) => pushes s = 6%nat
                  | Panic _ => False
                  end) by (vm_compute; reflexivity).
      rewrite E in H. exact H.
    + exact (render_padding_balanced document 80 2 [] bytes final
               (Forall_nil _) E).
  - assert (H : match renderWith (NewRenderer 80 2 []) document with
                | Ok _ => True
                | Panic _ => False
                end) by (vm_compute; exact I).
    rewrite E in H. destruct H.
Defined.

Lemma paragraph_exit_block_witness :
  RenderNode atParagraph false (busy (str "body") (str "- ") false)
  = Ok (GoToNext,
        mkSt (NewRenderer 80 2 []) (str "- body" ++ [LF; LF]) 0%nat 0%nat).
Proof.
  destruct (paragraph_exit_block [txt "body"]
              [(Container Document
                  [Container Paragraph [txt "body"];
                   Container (Heading 2) [txt "next"]], 0%nat)]
              (busy (str "body") (str "- ") false))
    as [extra [E [Hyes _]]].
  - vm_compute. discriminate.
  - unfold atParagraph. rewrite E. rewrite Hyes.
    + reflexivity.
    + exists (Container (Heading 2) [txt "next"]).
      split; [reflexivity|]. right. left. eauto.
Defined.


(** C7 (as worded) fails: what an Image leaves in the accumulator starts
    with an exclamation mark and ends with a line break; it is not the
    bare "[title](destination)". *)
Lemma image_text_not_as_worded :
  let node := Container (Image (str "logo.png") []) [txt "logo"] in
  RenderNode {| self := node; path := [] |} true start
  = Ok (SkipChildren, withAccumulator (str "![logo](logo.png)" ++ [LF]) start)
  /\ str "![logo](logo.png)" ++ [LF]
     <> inlineAccumulator (rd start)
        ++ imageText_as_worded (str "logo") (str "logo.png").
Proof.
  split; [reflexivity|]. vm_compute. discriminate.
Qed.

(** A renderer that has rendered is not fresh: used again, it numbers the
    headings on from where it stopped. *)
Lemma reused_renderer_numbers_on :
  let doc := Container Document [Container (Heading 1) [txt "T"]] in
  let rule := dash ++ dash ++ dash in
  match renderWith (NewRenderer 3 0 []) doc with
  | Ok (bytes1, s1) =>
      bytes1 = str "1 T" ++ [LF] ++ rule ++ [LF; LF]
      /\ match renderWith (rd s1) doc with
         | Ok (bytes2, _) => bytes2 = str "2 T" ++ [LF] ++ rule ++ [LF; LF]
         | Panic _ => False
         end
  | Panic _ => False
  end.
Proof. vm_compute. split; reflexivity. Qed.

(** A Link whose first child is an Image: the render panics. *)
Lemma link_around_image_panics :
  Render (Container Document
            [Container Paragraph
               [Container (Link (str "http://example.org") [])
                  [Container (Image (str "logo.png") []) [txt "logo"]]]])
         80 0 []
  = Panic NilDereference.
Proof. reflexivity. Qed.



Lemma text_cleaned_by_nearest_ancestor_witness :
  (exists sc,
      visited [] (Container Document [quotation]) start atQuoted sc
      /\ RenderNode atQuoted true sc
         = Ok (GoToNext,
               withAccumulator (inlineAccumulator (rd sc) ++ hello) sc))
  /\ Render (paragraphDoc [Leaf Text hello]) 80 2 []
     = Ok (str "  Hello World" ++ [LF])
  /\ Render (Container Document [quotation]) 80 2 []
     = Ok (str "  " ++ bar ++ str "Hello" ++ [LF]
             ++ str "  " ++ bar ++ str "World" ++ [LF]).
Proof.
  assert (Hne : hello <> [LF]) by (vm_compute; discriminate).
  assert (Hpad : 0 <= 2) by lia.
  split; [|split].
  - assert (Hin : inTree [] (Container Document [quotation]) atQuoted).
    { unfold quotation, atQuoted.
      repeat (eapply (inTree_child _ _ _ 0%nat); [reflexivity|]). apply inTree_root. }
    assert (Hopen : Forall (fun step => isLinkOrImage (fst step) = false)
                      (path atQuoted)) by (repeat constructor).
    assert (Hpre : Forall (fun step => cleanVerdict (fst step) = None)
                     [(Container Paragraph [Leaf Text hello], 0%nat)])
      by (repeat constructor).
    destruct (Walk [] (Container Document [quotation]) start)
      as [[status final]|p] eqn:E.
    + destruct (proj1 text_cleaned_by_nearest_ancestor
                  (Container Document [quotation]) start final status
                  atQuoted hello E Hin eq_refl) as [[_ Hvisit] Hadd].
      destruct (Hvisit Hopen) as [sc Hsc]. exists sc.
      split; [exact Hsc|].
      exact (proj2 (proj2 (Hadd sc Hsc) Hne
                      [(Container Paragraph [Leaf Text hello], 0%nat)]
                      quotation 0%nat
                      [(Container Document [quotation], 0%nat)] false
                      eq_refl Hpre eq_refl)).
    + assert (H : match Walk [] (Container Document [quotation]) start with
                  | Ok _ => True
                  | Panic _ => False
                  end) by (vm_compute; exact I).
      rewrite E in H. destruct H.
  - exact (proj1 (proj1 (proj2 text_cleaned_by_nearest_ancestor)
                    hello 80 2 [] Hne Hpad (Forall_nil _))).
  - exact (proj2 (proj1 (proj2 text_cleaned_by_nearest_ancestor)
                    hello 80 2 [] Hne Hpad (Forall_nil _))).
Defined.

(** C2 (as worded) fails.  A Text that is the lone line break, inside a
    quotation, is dropped: the author's break between "a" and "b" is not
    kept.  And the text below a link, whose nearest ancestor named in
    [shouldCleanText] is the link, is not collapsed: the walk never visits
    it, and the link writes it with its line break. *)
Lemma text_not_by_nearest_ancestor :
  shouldCleanText atQuotedBreak = Ok false
  /\ Render (Container Document [quotedBreak]) 80 0 []
     = Ok (bar ++ str "ab" ++ [LF])
  /\ shouldCleanText atLinked = Ok true
  /\ inTree [] linkDoc atLinked
  /\ ~ (exists sc, visited [] linkDoc start atLinked sc)
  /\ Render linkDoc 80 0 []
     = Ok (str "[Hello" ++ LF :: str "World](u)" ++ [LF]).
Proof.
  repeat split; try reflexivity.
  - unfold linkDoc, atLinked, linked.
    repeat (eapply (inTree_child _ _ _ 0%nat); [reflexivity|]). apply inTree_root.
  - intros [sc Hv]. apply visited_open in Hv.
    destruct Hv as [pre [Hp Ho]]. rewrite app_nil_r in Hp. subst pre.
    inversion Ho as [|? ? Hlink _]. discriminate Hlink.
Qed.
